(** * Semantic retrieval in the journal server: a shallow embedding

    The development follows the Go and SQL sources of the journal server:

    - [GoStrings]: the functions of Go's [strings] and [strconv] packages that
      the chat handler calls ([Split], [TrimSpace], [Atoi]);
    - [Db]: the [entries] table and the sqlc queries over it;
    - [VectorService]: [vectorservice/service.go] (sync cycle, lifecycle);
    - [Handler]: the [Chat] handler of [api/config_handler.go];
    - [SyncMutex]: goroutines that call [updateVectors] under [sync.Mutex];
    - [Spec]: the notions the properties are stated with (staleness, kept
      ordinals, resolved citations, projections of a cycle's trace);
    - [Scenario]: concrete notes, tables and collaborators.

    Definitions come first, facts about them afterwards.  Vector components
    and distances are real numbers; timestamps are integers (microseconds). *)

From Stdlib Require Import Ascii String DecimalString.
From Stdlib Require Import ZArith NArith Lia Bool Reals Lra.
From Stdlib Require Import List Permutation Sorted.
Import ListNotations.

Set Implicit Arguments.

(* ===================================================================== *)
(** * Go strings *)
(* ===================================================================== *)

Module GoStrings.

(** A Go string is a sequence of bytes. *)
Definition gostring := list ascii.

(** A string literal of the source. *)
Definition lit (s : string) : gostring := list_ascii_of_string s.

Definition byte (c : ascii) : N := N_of_ascii c.

Fixpoint eqs (a b : gostring) : bool :=
  match a, b with
  | [], [] => true
  | x :: a', y :: b' => Ascii.eqb x y && eqs a' b'
  | _, _ => false
  end.

(** [strings.HasPrefix]. *)
Fixpoint HasPrefix (s prefix : gostring) {struct prefix} : bool :=
  match prefix with
  | [] => true
  | p :: prefix' =>
      match s with
      | [] => false
      | c :: s' => Ascii.eqb p c && HasPrefix s' prefix'
      end
  end.

(** [strings.Index]: the byte offset of the first instance of [substr] in
    [s]; [None] stands for Go's -1. *)
Fixpoint Index (s substr : gostring) {struct s} : option nat :=
  if HasPrefix s substr then Some 0
  else match s with
       | [] => None
       | _ :: s' => option_map S (Index s' substr)
       end.

(** The loop of [strings.Count] for a non-empty [substr]:
    [for { i := Index(s, substr); if i == -1 { return n }; n++;
           s = s[i+len(substr):] }].
    The loop shortens [s] at every round, so [length s] rounds are enough. *)
Fixpoint countLoop (fuel : nat) (s substr : gostring) : nat :=
  match fuel with
  | 0 => 0
  | S fuel' =>
      match Index s substr with
      | None => 0
      | Some i => S (countLoop fuel' (skipn (i + length substr) s) substr)
      end
  end.

Definition Count (s substr : gostring) : nat := countLoop (length s) s substr.

(** The loop of [strings.genSplit] (with [sepSave = 0]): at most [n] cuts,
    each at the first instance of [sep] in what is left of [s]. *)
Fixpoint genSplit (n : nat) (s sep : gostring) : list gostring :=
  match n with
  | 0 => [s]
  | S n' =>
      match Index s sep with
      | None => [s]
      | Some m => firstn m s :: genSplit n' (skipn (m + length sep) s) sep
      end
  end.

(** [strings.Split(s, sep)] is [genSplit(s, sep, 0, -1)], which cuts
    [Count(s, sep)] times.  With an empty separator Go explodes [s] into its
    UTF-8 sequences; the handler only passes the literals ["CITATIONS:"] and
    [","], and the model explodes byte by byte in that unused case. *)
Definition Split (s sep : gostring) : list gostring :=
  match sep with
  | [] => map (fun c => [c]) s
  | _ :: _ => genSplit (Count s sep) s sep
  end.

(** ** [strings.TrimSpace]

    Go trims the leading and the trailing runes for which [unicode.IsSpace]
    holds: the ASCII characters tab, newline, vertical tab, form feed,
    carriage return and space, then U+0085, U+00A0, U+1680, U+2000..U+200A,
    U+2028, U+2029, U+202F, U+205F and U+3000.  On bytes these are the UTF-8
    sequences recognised below. *)

Definition asciiSpace (c : ascii) : bool :=
  let n := byte c in
  ((9 <=? n) && (n <=? 13) || (n =? 32))%N.

(** The two-byte sequences of U+0085 and U+00A0. *)
Definition space2 (c d : ascii) : bool :=
  ((byte c =? 194) && ((byte d =? 133) || (byte d =? 160)))%N.

(** The three-byte sequences of U+1680, U+2000..U+200A, U+2028, U+2029,
    U+202F, U+205F and U+3000. *)
Definition space3 (c d e : ascii) : bool :=
  let '(c, d, e) := (byte c, byte d, byte e) in
  ((c =? 225) && (d =? 154) && (e =? 128)
   || (c =? 226) && (d =? 128) &&
      ((128 <=? e) && (e <=? 138) || (e =? 168) || (e =? 169) || (e =? 175))
   || (c =? 226) && (d =? 129) && (e =? 159)
   || (c =? 227) && (d =? 128) && (e =? 128))%N.

(** Width in bytes of the white-space rune [s] starts with, 0 if it starts
    with none. *)
Definition leadingSpace (s : gostring) : nat :=
  match s with
  | c :: r =>
      if asciiSpace c then 1
      else match r with
           | d :: r' =>
               if space2 c d then 2
               else match r' with
                    | e :: _ => if space3 c d e then 3 else 0
                    | [] => 0
                    end
           | [] => 0
           end
  | [] => 0
  end.

(** The same for the rune [s] ends with; [r] is [s] reversed. *)
Definition trailingSpace (r : gostring) : nat :=
  match r with
  | c :: r' =>
      if asciiSpace c then 1
      else match r' with
           | d :: r'' =>
               if space2 d c then 2
               else match r'' with
                    | e :: _ => if space3 e d c then 3 else 0
                    | [] => 0
                    end
           | [] => 0
           end
  | [] => 0
  end.

Fixpoint trimLeft (fuel : nat) (s : gostring) : gostring :=
  match fuel with
  | 0 => s
  | S fuel' =>
      match leadingSpace s with
      | 0 => s
      | w => trimLeft fuel' (skipn w s)
      end
  end.

Fixpoint trimRightRev (fuel : nat) (r : gostring) : gostring :=
  match fuel with
  | 0 => r
  | S fuel' =>
      match trailingSpace r with
      | 0 => r
      | w => trimRightRev fuel' (skipn w r)
      end
  end.

Definition TrimSpace (s : gostring) : gostring :=
  let l := trimLeft (length s) s in
  rev (trimRightRev (length l) (rev l)).

(** ** [strconv.Atoi]

    An optional sign, then one or more decimal digits; a value outside the
    64-bit [int] range is a range error.  [None] stands for [err != nil]. *)

Definition digit (c : ascii) : option Z :=
  let n := byte c in
  if ((48 <=? n) && (n <=? 57))%N then Some (Z.of_N n - 48)%Z else None.

Fixpoint digits (acc : Z) (s : gostring) : option Z :=
  match s with
  | [] => Some acc
  | c :: r =>
      match digit c with
      | None => None
      | Some d => digits (acc * 10 + d)%Z r
      end
  end.

Definition minInt : Z := (- 2 ^ 63)%Z.
Definition maxInt : Z := (2 ^ 63 - 1)%Z.

Definition Atoi (s : gostring) : option Z :=
  match s with
  | [] => None
  | c :: r =>
      let neg := (byte c =? 45)%N in
      let body := if ((byte c =? 45) || (byte c =? 43))%N then r else s in
      match body with
      | [] => None
      | _ :: _ =>
          match digits 0 body with
          | None => None
          | Some n =>
              let v := if neg then (- n)%Z else n in
              if ((minInt <=? v) && (v <=? maxInt))%Z then Some v else None
          end
      end
  end.

(** [strconv.Itoa] / the verb [%d], and [%02d] (zero padding to width 2; the
    sign counts for the width). *)
Definition Itoa (z : Z) : gostring :=
  lit (NilZero.string_of_int (Z.to_int z)).

Definition Itoa02 (z : Z) : gostring :=
  let s := Itoa z in
  match s with
  | [d] => lit "0" ++ [d]
  | _ => s
  end.

(** Overlapping occurrences of [sep] in [s]: the positions at which [sep]
    starts.  This is how the properties below count "occurrences of the
    marker"; it does not depend on [Split]. *)
Fixpoint occurrences (s sep : gostring) {struct s} : nat :=
  (if HasPrefix s sep then 1 else 0) +
  match s with
  | [] => 0
  | _ :: s' => occurrences s' sep
  end.

End GoStrings.

Import GoStrings.

(* ===================================================================== *)
(** * The entries table and its queries *)
(* ===================================================================== *)

Module Db.

(** A [uuid] is a 128-bit number, a [timestamptz] a number of microseconds,
    a pgvector [vector] a sequence of numbers (reals stand for the [float4]
    components). *)
Definition UUID := N.
Definition Timestamp := Z.
Definition vector := list R.

(** A row of [entries]: the columns that the modelled queries read or write.
    [embedding_vector] and [vectors_updated_at] are the two nullable
    columns; every other column is [NOT NULL]. *)
Record Entry := mkEntry {
  ID : UUID;
  UserID : UUID;
  Title : gostring;
  BodyText : gostring;
  DayYear : Z;
  DayMonth : Z;
  DayDay : Z;
  Archived : bool;
  CreatedAt : Timestamp;
  UpdatedAt : Timestamp;
  EmbeddingVector : option vector;
  VectorsUpdatedAt : option Timestamp
}.

Definition Table := list Entry.

(** ** Ordering and limiting *)

Section Sort.
Variable A : Type.
Variable le : A -> A -> bool.

Fixpoint insert (x : A) (l : list A) : list A :=
  match l with
  | [] => [x]
  | y :: l' => if le x y then x :: l else y :: insert x l'
  end.

(** [ORDER BY]: SQL leaves the order of rows with equal keys open; the
    model keeps them in table order. *)
Fixpoint orderBy (l : list A) : list A :=
  match l with
  | [] => []
  | x :: l' => insert x (orderBy l')
  end.
End Sort.

(** [LIMIT n]: PostgreSQL rejects a negative [n]
    ("LIMIT must not be negative"); [None] is a failed query. *)
Definition limitRows (A : Type) (n : Z) (l : list A) : option (list A) :=
  if (n <? 0)%Z then None else Some (firstn (Z.to_nat n) l).

(** ** GetEntriesNeedingVectors *)

Record GetEntriesNeedingVectorsRow := mkNeedRow {
  N_ID : UUID;
  N_Title : gostring;
  N_BodyText : gostring;
  N_CreatedAt : Timestamp;
  N_UpdatedAt : Timestamp
}.

Definition isNull (A : Type) (o : option A) : bool :=
  match o with None => true | Some _ => false end.

(** [embedding_vector IS NULL OR vectors_updated_at IS NULL
     OR updated_at > vectors_updated_at].  A comparison with NULL is not
    true, which the second disjunct covers. *)
Definition needsVectors (e : Entry) : bool :=
  isNull (EmbeddingVector e)
  || isNull (VectorsUpdatedAt e)
  || match VectorsUpdatedAt e with
     | Some synced => (synced <? UpdatedAt e)%Z
     | None => false
     end.

(** The [WHERE] clause. *)
Definition needingVectorsWhere (user : UUID) (e : Entry) : bool :=
  (UserID e =? user)%N && negb (Archived e) && needsVectors e.

(** [ORDER BY updated_at DESC]. *)
Definition updatedDesc (a b : Entry) : bool := (UpdatedAt b <=? UpdatedAt a)%Z.

Definition needRow (e : Entry) : GetEntriesNeedingVectorsRow :=
  mkNeedRow (ID e) (Title e) (BodyText e) (CreatedAt e) (UpdatedAt e).

(** The rows of [entries] the query selects, before the projection. *)
Definition staleBatch (t : Table) (user : UUID) (limit : Z) : option (list Entry) :=
  limitRows limit (orderBy updatedDesc (filter (needingVectorsWhere user) t)).

Definition GetEntriesNeedingVectors (t : Table) (user : UUID) (limit : Z)
  : option (list GetEntriesNeedingVectorsRow) :=
  option_map (map needRow) (staleBatch t user limit).

(** ** UpdateEntryVector

    [UPDATE entries SET embedding_vector = $2,
     vectors_updated_at = CURRENT_TIMESTAMP WHERE id = $1]; [now] is the
    value of [CURRENT_TIMESTAMP].  [$2] is a nullable parameter (a
    [*pgvector.Vector] in the generated code). *)
Definition setVector (v : option vector) (now : Timestamp) (e : Entry) : Entry :=
  mkEntry (ID e) (UserID e) (Title e) (BodyText e) (DayYear e) (DayMonth e)
          (DayDay e) (Archived e) (CreatedAt e) (UpdatedAt e) v (Some now).

Definition UpdateEntryVector (t : Table) (id : UUID) (v : option vector)
  (now : Timestamp) : Table :=
  map (fun e => if (ID e =? id)%N then setVector v now e else e) t.

(** ** GetEntry, UpdateEntry, SoftDeleteEntry, CreateEntry *)

(** [SELECT * FROM entries WHERE id = $1 AND archived = false LIMIT 1];
    [None] is pgx's "no rows" error. *)
Definition GetEntry (t : Table) (id : UUID) : option Entry :=
  find (fun e => (ID e =? id)%N && negb (Archived e)) t.

(** [UPDATE entries SET title = $2, ..., body_text = $5, ...,
     updated_at = NOW() WHERE id = $1 AND archived = false]. *)
Definition UpdateEntry (t : Table) (id : UUID) (title bodyText : gostring)
  (now : Timestamp) : Table :=
  map (fun e =>
         if (ID e =? id)%N && negb (Archived e)
         then mkEntry (ID e) (UserID e) title bodyText (DayYear e) (DayMonth e)
                      (DayDay e) (Archived e) (CreatedAt e) now
                      (EmbeddingVector e) (VectorsUpdatedAt e)
         else e) t.

(** [UPDATE entries SET archived = true, updated_at = NOW() WHERE id = $1]. *)
Definition SoftDeleteEntry (t : Table) (id : UUID) (now : Timestamp) : Table :=
  map (fun e =>
         if (ID e =? id)%N
         then mkEntry (ID e) (UserID e) (Title e) (BodyText e) (DayYear e)
                      (DayMonth e) (DayDay e) true (CreatedAt e) now
                      (EmbeddingVector e) (VectorsUpdatedAt e)
         else e) t.

(** [INSERT INTO entries (...) VALUES (...)]: [id] is the fresh
    [gen_random_uuid()], both timestamps default to [NOW()], the two vector
    columns to NULL. *)
Definition CreateEntry (t : Table) (id user : UUID) (title bodyText : gostring)
  (y m d : Z) (now : Timestamp) : Table :=
  t ++ [mkEntry id user title bodyText y m d false now now None None].

(** The statements that write [entries], and a run of them: every statement
    carries the time at which the database executes it. *)
Inductive Statement :=
| StCreateEntry (id user : UUID) (title bodyText : gostring) (y m d : Z)
| StUpdateEntry (id : UUID) (title bodyText : gostring)
| StSoftDeleteEntry (id : UUID)
| StUpdateEntryVector (id : UUID) (v : option vector).

Definition execStatement (now : Timestamp) (st : Statement) (t : Table) : Table :=
  match st with
  | StCreateEntry id user title bodyText y m d =>
      CreateEntry t id user title bodyText y m d now
  | StUpdateEntry id title bodyText => UpdateEntry t id title bodyText now
  | StSoftDeleteEntry id => SoftDeleteEntry t id now
  | StUpdateEntryVector id v => UpdateEntryVector t id v now
  end.

(** ** SearchSimilarEntries *)

Definition sum (l : list R) : R := fold_right Rplus 0%R l.

Definition dot (a b : vector) : R :=
  sum (map (fun p => (fst p * snd p)%R) (combine a b)).

Definition sub (a b : vector) : vector :=
  map (fun p => (fst p - snd p)%R) (combine a b).

(** pgvector's [<->]: the Euclidean (L2) distance; vectors of different
    dimensions are an error. *)
Definition l2_distance (a b : vector) : option R :=
  if length a =? length b then Some (sqrt (dot (sub a b) (sub a b))) else None.

(** pgvector's [<=>], the cosine distance.  No query of the repository
    uses it; it is here to compare [<->] with. *)
Definition cosine_distance (a b : vector) : option R :=
  if length a =? length b
  then Some (1 - dot a b / sqrt (dot a a * dot b b))%R
  else None.

Record SearchSimilarEntriesRow := mkSearchRow {
  S_ID : UUID;
  S_Title : gostring;
  S_BodyText : gostring;
  S_DayYear : Z;
  S_DayMonth : Z;
  S_DayDay : Z;
  S_CreatedAt : Timestamp;
  S_UpdatedAt : Timestamp;
  S_Distance : R
}.

(** The [WHERE] clause. *)
Definition searchWhere (user : UUID) (e : Entry) : bool :=
  (UserID e =? user)%N && negb (Archived e) && negb (isNull (EmbeddingVector e)).

(** [embedding_vector <-> $2::vector] on every selected row; one failing
    row fails the query. *)
Fixpoint withDistance (q : vector) (l : list Entry) : option (list (Entry * R)) :=
  match l with
  | [] => Some []
  | e :: l' =>
      match EmbeddingVector e with
      | None => None
      | Some v =>
          match l2_distance v q, withDistance q l' with
          | Some d, Some r => Some ((e, d) :: r)
          | _, _ => None
          end
      end
  end.

Definition Rleb (x y : R) : bool := if Rle_dec x y then true else false.

(** [ORDER BY embedding_vector <-> $2::vector]. *)
Definition nearer (a b : Entry * R) : bool := Rleb (snd a) (snd b).

Definition searchRow (p : Entry * R) : SearchSimilarEntriesRow :=
  let e := fst p in
  mkSearchRow (ID e) (Title e) (BodyText e) (DayYear e) (DayMonth e) (DayDay e)
              (CreatedAt e) (UpdatedAt e) (snd p).

(** The selected rows with their distance, before the projection. *)
Definition nearest (t : Table) (user : UUID) (q : vector) (limit : Z)
  : option (list (Entry * R)) :=
  match withDistance q (filter (searchWhere user) t) with
  | None => None
  | Some ds => limitRows limit (orderBy nearer ds)
  end.

Definition SearchSimilarEntries (t : Table) (user : UUID) (q : vector) (limit : Z)
  : option (list SearchSimilarEntriesRow) :=
  option_map (map searchRow) (nearest t user q limit).

End Db.

Import Db.

(** A Go call either returns or panics. *)
Inductive Outcome (A : Type) :=
| Done (a : A)
| Panic.
Arguments Panic {A}.

(* ===================================================================== *)
(** * vectorservice/service.go *)
(* ===================================================================== *)

Module VectorService.

(** The hard-wired user ["02a0aa58-b88a-46f1-9799-f103e04c0b72"]. *)
Definition testUserID : UUID := 0x02a0aa58b88a46f19799f103e04c0b72%N.

(** What a run leaves behind: the calls to the collaborators and the lines
    written with [log.Printf]. *)
Inductive Event :=
| CallGenerateEmbedding (text : gostring)
| CallUpdateEntryVector (id : UUID)
| LogFetchError
| LogUpdating (n : nat)
| LogEmbeddingError (id : UUID)
| LogUpdateError (id : UUID)
| LogSuccess (n : nat).

(** The collaborators of one cycle.  [GenerateEmbedding] is the Ollama
    client ([None]: it returned an error); [fetchFails], [updateFails] and
    [searchFails] say which statements the database fails; [clock i] is the
    [CURRENT_TIMESTAMP] of the update made for the [i]-th entry of the
    batch. *)
Record Backend := mkBackend {
  GenerateEmbedding : gostring -> option vector;
  fetchFails : bool;
  updateFails : UUID -> bool;
  searchFails : bool;
  clock : nat -> Timestamp
}.

Definition prepareTextForEmbedding (title bodyText : gostring) : gostring :=
  match title with
  | [] => bodyText
  | _ :: _ => title ++ lit (String "010" (String "010" EmptyString)) ++ bodyText
  end.

Section Cycle.
Variable b : Backend.

(** The [for _, entry := range entries] loop of [updateVectors]; [i]
    counts the entries already visited. *)
Fixpoint processEntries (i : nat) (entries : list GetEntriesNeedingVectorsRow)
  (t : Table) : Table * list Event :=
  match entries with
  | [] => (t, [])
  | entry :: rest =>
      let text := prepareTextForEmbedding (N_Title entry) (N_BodyText entry) in
      match GenerateEmbedding b text with
      | None =>
          let (t', evs) := processEntries (S i) rest t in
          (t', CallGenerateEmbedding text :: LogEmbeddingError (N_ID entry) :: evs)
      | Some embedding =>
          if updateFails b (N_ID entry) then
            let (t', evs) := processEntries (S i) rest t in
            (t', CallGenerateEmbedding text :: CallUpdateEntryVector (N_ID entry)
                 :: LogUpdateError (N_ID entry) :: evs)
          else
            let t1 := UpdateEntryVector t (N_ID entry) (Some embedding) (clock b i) in
            let (t', evs) := processEntries (S i) rest t1 in
            (t', CallGenerateEmbedding text :: CallUpdateEntryVector (N_ID entry)
                 :: evs)
      end
  end.

(** [updateVectors], between [s.mu.Lock()] and the deferred
    [s.mu.Unlock()].  It has no result in Go; the model returns the table
    it leaves and the events of the cycle. *)
Definition updateVectors (batchSize : Z) (t : Table) : Table * list Event :=
  match (if fetchFails b then None
         else GetEntriesNeedingVectors t testUserID batchSize) with
  | None => (t, [LogFetchError])
  | Some [] => (t, [])
  | Some entries =>
      let (t', evs) := processEntries 0 entries t in
      (t', LogUpdating (length entries) :: evs ++ [LogSuccess (length entries)])
  end.

(** [SearchSimilarEntries] of the service: embed the query, then run the
    SQL query; [None] is either of the two wrapped errors. *)
Definition SearchSimilarEntries (t : Table) (userID : UUID)
  (query : gostring) (limit : Z) : option (list SearchSimilarEntriesRow) :=
  match GenerateEmbedding b query with
  | None => None
  | Some embedding =>
      if searchFails b then None
      else Db.SearchSimilarEntries t userID embedding limit
  end.
End Cycle.

(** ** Lifecycle *)

(** The fields of [VectorService] that [Start] and [Stop] read and write:
    [running], and whether the channel made once by [New] has been closed.
    [tickers] counts the ticker goroutines [Start] has launched. *)
Record Service := mkService {
  running : bool;
  stopChClosed : bool;
  tickers : nat
}.

(** [New]: [stopCh: make(chan struct{})], [running] at its zero value. *)
Definition New : Service := mkService false false 0.

(** [Start]: nothing when already running; otherwise set [running] and
    launch the first cycle and the ticker loop. *)
Definition Start (s : Service) : Outcome Service :=
  if running s then Done s
  else Done (mkService true (stopChClosed s) (S (tickers s))).

(** [Stop]: nothing when not running; otherwise [close(s.stopCh)], which
    panics on a closed channel, then [s.running = false]. *)
Definition Stop (s : Service) : Outcome Service :=
  if negb (running s) then Done s
  else if stopChClosed s then Panic
  else Done (mkService false true (tickers s)).

Inductive Call := CallStart | CallStop.

Definition call (c : Call) (s : Service) : Outcome Service :=
  match c with
  | CallStart => Start s
  | CallStop => Stop s
  end.

(** A sequence of calls on one service; a panic ends it. *)
Fixpoint run (cs : list Call) (s : Service) : Outcome Service :=
  match cs with
  | [] => Done s
  | c :: cs' =>
      match call c s with
      | Done s' => run cs' s'
      | Panic => Panic
      end
  end.

End VectorService.

(* ===================================================================== *)
(** * api/config_handler.go: the Chat handler *)
(* ===================================================================== *)

Module Handler.

Definition nl : gostring := ["010"%char].

Record EntryResponse := mkEntryResponse {
  R_ID : UUID;
  R_UserID : UUID;
  R_Title : gostring;
  R_BodyText : gostring;
  R_DayYear : Z;
  R_DayMonth : Z;
  R_DayDay : Z;
  R_CreatedAt : Timestamp;
  R_UpdatedAt : Timestamp
}.

Definition entryToResponse (entry : Entry) : EntryResponse :=
  mkEntryResponse (ID entry) (UserID entry) (Title entry) (BodyText entry)
                  (DayYear entry) (DayMonth entry) (DayDay entry)
                  (CreatedAt entry) (UpdatedAt entry).

Definition EntryResponse_eq_dec (a b : EntryResponse) : {a = b} + {a <> b}.
Proof.
  decide equality;
    solve [apply Z.eq_dec | apply N.eq_dec | apply (list_eq_dec ascii_dec)].
Defined.

Record ChatResponse := mkChatResponse {
  Response : gostring;
  SourceEntries : list EntryResponse;
  MessageID : UUID
}.

(** What the handler writes with [c.JSON]. *)
Inductive Reply :=
| StatusBadRequest (error : gostring)
| StatusInternalServerError (error : gostring)
| StatusOK (body : ChatResponse).

Inductive LogLine :=
| LogSearchError
| LogSearchFound (n : nat)
| LogLLMError
| LogFetchEntryError (id : UUID)
| LogCited (cited offered : nat).

(** The collaborators of one request: the vector service's backend, the
    completion call of the Ollama client ([None]: an error), the failures
    of [GetEntry] other than a missing row, and the [uuid.New()] drawn for
    the answer. *)
Record Deps := mkDeps {
  backend : VectorService.Backend;
  ollamaChat : gostring -> option gostring;
  getEntryFails : UUID -> bool;
  newMessageID : UUID
}.

(** [fmt.Sprintf("%d. %s (Date: %d-%02d-%02d)\n%s\n\n", i+1, ...)]. *)
Definition contextEntry (i : nat) (entry : SearchSimilarEntriesRow) : gostring :=
  Itoa (Z.of_nat i + 1) ++ lit ". " ++ S_Title entry ++ lit " (Date: "
  ++ Itoa (S_DayYear entry) ++ lit "-" ++ Itoa02 (S_DayMonth entry) ++ lit "-"
  ++ Itoa02 (S_DayDay entry) ++ lit ")" ++ nl ++ S_BodyText entry ++ nl ++ nl.

Fixpoint contextEntries (i : nat) (entries : list SearchSimilarEntriesRow) : gostring :=
  match entries with
  | [] => []
  | entry :: rest => contextEntry i entry ++ contextEntries (S i) rest
  end.

Definition contextBuilder (similarEntries : list SearchSimilarEntriesRow) : gostring :=
  match similarEntries with
  | [] => []
  | _ :: _ =>
      lit "Here are some relevant journal entries:" ++ nl ++ nl
      ++ contextEntries 0 similarEntries
  end.

Definition promptBuilder (similarEntries : list SearchSimilarEntriesRow)
  (message : gostring) : gostring :=
  lit "You are a helpful AI assistant with access to the user's journal entries. "
  ++ lit "Use the provided context to answer questions about past events, meetings, and notes."
  ++ nl ++ nl
  ++ (if 0 <? length (contextBuilder similarEntries)
      then contextBuilder similarEntries else [])
  ++ lit "User Question: "
  ++ message
  ++ nl ++ nl
  ++ lit "IMPORTANT: After your response, on a new line, add 'CITATIONS: ' followed by ONLY the numbers of the journal entries you actually used (e.g., 'CITATIONS: 1, 3' or 'CITATIONS: none' if you didn't use any). Provide a helpful response based on the journal entries above.".

Definition marker : gostring := lit "CITATIONS:".

(** The body of [for _, citStr := range citationParts]: append [num-1]
    when [Atoi] succeeds and [num > 0 && num <= len(similarEntries)]. *)
Definition citeStep (offered : nat) (citedIndices : list Z) (citStr : gostring)
  : list Z :=
  match Atoi (TrimSpace citStr) with
  | Some num =>
      if ((0 <? num) && (num <=? Z.of_nat offered))%Z
      then citedIndices ++ [(num - 1)%Z]
      else citedIndices
  | None => citedIndices
  end.

(** "Parse citations from LLM response": the answer text and the cited
    0-based indices. *)
Definition parseCitations (llmResponse : gostring) (offered : nat)
  : gostring * list Z :=
  match Split llmResponse marker with
  | [part0; part1] =>
      let actualResponse := TrimSpace part0 in
      let citationsStr := TrimSpace part1 in
      if negb (eqs citationsStr (lit "none")) && negb (eqs citationsStr [])
      then (actualResponse,
            fold_left (citeStep offered) (Split citationsStr (lit ",")) [])
      else (actualResponse, [])
  | _ => (llmResponse, [])
  end.

(** [similarEntries[idx]]: an index out of range panics. *)
Definition index (A : Type) (l : list A) (idx : Z) : Outcome A :=
  if (idx <? 0)%Z then Panic
  else match nth_error l (Z.to_nat idx) with
       | Some a => Done a
       | None => Panic
       end.

Section Request.
Variable d : Deps.
Variable t : Table.

Definition getEntry (id : UUID) : option Entry :=
  if getEntryFails d id then None else GetEntry t id.

(** "Only include entries that were actually cited". *)
Fixpoint sourceEntries (similarEntries : list SearchSimilarEntriesRow)
  (citedIndices : list Z) : Outcome (list LogLine * list EntryResponse) :=
  match citedIndices with
  | [] => Done ([], [])
  | idx :: rest =>
      match index similarEntries idx with
      | Panic => Panic
      | Done entry =>
          match sourceEntries similarEntries rest with
          | Panic => Panic
          | Done (logs, sources) =>
              match getEntry (S_ID entry) with
              | None => Done (LogFetchEntryError (S_ID entry) :: logs, sources)
              | Some fullEntry => Done (logs, entryToResponse fullEntry :: sources)
              end
          end
      end
  end.

(** The entries offered to the model: the search result, or none when
    the search failed ("Continue without context if search fails"). *)
Definition similarEntriesFor (message : gostring) : list SearchSimilarEntriesRow :=
  match VectorService.SearchSimilarEntries (backend d) t
          VectorService.testUserID message 5 with
  | None => []
  | Some rows => rows
  end.

Definition searchLog (message : gostring) : list LogLine :=
  match VectorService.SearchSimilarEntries (backend d) t
          VectorService.testUserID message 5 with
  | None => [LogSearchError]
  | Some _ => []
  end.

(** [Chat]; [req] is what [ShouldBindJSON] made of the request body
    ([None]: it failed). *)
Definition Chat (req : option gostring) : Outcome (list LogLine * Reply) :=
  match req with
  | None => Done ([], StatusBadRequest (lit "Invalid request"))
  | Some [] => Done ([], StatusBadRequest (lit "Message is required"))
  | Some message =>
      let similarEntries := similarEntriesFor message in
      let logs := searchLog message ++ [LogSearchFound (length similarEntries)] in
      match ollamaChat d (promptBuilder similarEntries message) with
      | None =>
          Done (logs ++ [LogLLMError],
                StatusInternalServerError (lit "Failed to generate response"))
      | Some llmResponse =>
          let (actualResponse, citedIndices) :=
            parseCitations llmResponse (length similarEntries) in
          match sourceEntries similarEntries citedIndices with
          | Panic => Panic
          | Done (fetchLogs, sources) =>
              Done (logs ++ fetchLogs
                    ++ [LogCited (length citedIndices) (length similarEntries)],
                    StatusOK (mkChatResponse actualResponse sources (newMessageID d)))
          end
      end
  end.
End Request.

End Handler.

(* ===================================================================== *)
(** * Goroutines calling updateVectors under the service's mutex *)
(* ===================================================================== *)

Module SyncMutex.

(** [updateVectors] opens with [s.mu.Lock(); defer s.mu.Unlock()], and
    [Start] calls it from two goroutines: [go s.updateVectors(ctx)] for the
    first cycle, and the ticker loop on every tick.

    Where a goroutine stands with respect to [updateVectors]:
    outside of it, inside [s.mu.Lock()], or past it and holding the mutex
    with [work] statements left before the deferred [s.mu.Unlock()]. *)
Inductive Pc :=
| Idle
| AtLock
| InCycle (work : nat).

(** [invoked] counts the calls of [updateVectors] the goroutine has made,
    [cycles] the calls that ran their body and returned. *)
Record Goroutine := mkGoroutine {
  pc : Pc;
  invoked : nat;
  cycles : nat
}.



Definition set (gs : nat -> Goroutine) (g : nat) (v : Goroutine) : nat -> Goroutine :=
  fun h => if h =? g then v else gs h.









End SyncMutex.

(* ===================================================================== *)
(** * The properties, in the words of the specification *)
(* ===================================================================== *)

Module Spec.

(** A note is stale iff its embedding is absent, or its watermark is
    absent, or it was updated after the watermark. *)
Definition stale (e : Entry) : Prop :=
  EmbeddingVector e = None
  \/ VectorsUpdatedAt e = None
  \/ exists synced, VectorsUpdatedAt e = Some synced /\ (UpdatedAt e > synced)%Z.

(** The tokens of a citation segment: split on commas, trim white space.
    The segment is trimmed as a whole first, which removes white space that
    trimming its first and its last token removes anyway. *)
Definition tokens (segment : gostring) : list gostring :=
  map TrimSpace (Split (TrimSpace segment) (lit ",")).

(** The tokens that parse as an integer, as integers. *)
Definition integers (toks : list gostring) : list Z :=
  flat_map (fun tok => match Atoi tok with Some n => [n] | None => [] end) toks.

(** The ordinals that survive: [1 <= n <= offered]. *)
Definition keptOrdinals (segment : gostring) (offered : nat) : list Z :=
  filter (fun n => (1 <=? n) && (n <=? Z.of_nat offered))%Z
         (integers (tokens segment)).

(** The retrieved note at a 0-based index, fetched again in full; a note
    that cannot be fetched is skipped. *)
Definition fetched (d : Handler.Deps) (t : Table)
  (retrieved : list SearchSimilarEntriesRow) (idx : Z)
  : list Handler.EntryResponse :=
  match nth_error retrieved (Z.to_nat idx) with
  | Some note =>
      match Handler.getEntry d t (S_ID note) with
      | Some full => [Handler.entryToResponse full]
      | None => []
      end
  | None => []
  end.

(** An ordinal [n] resolves to the retrieved note at 0-based index [n-1]. *)
Definition resolve (d : Handler.Deps) (t : Table)
  (retrieved : list SearchSimilarEntriesRow) (ordinals : list Z)
  : list Handler.EntryResponse :=
  flat_map (fun n => fetched d t retrieved (n - 1)) ordinals.

(** The text embedded for a row of the batch, and the two ways in which
    the row can fail: the embedding, or the update that follows a
    successful embedding. *)
Definition textOf (entry : GetEntriesNeedingVectorsRow) : gostring :=
  VectorService.prepareTextForEmbedding (N_Title entry) (N_BodyText entry).

Definition embedFails (b : VectorService.Backend)
  (entry : GetEntriesNeedingVectorsRow) : bool :=
  isNull (VectorService.GenerateEmbedding b (textOf entry)).

Definition upsertFails (b : VectorService.Backend)
  (entry : GetEntriesNeedingVectorsRow) : bool :=
  negb (embedFails b entry) && VectorService.updateFails b (N_ID entry).

(** The embed calls, the update calls and the logged failures of a trace. *)
Definition embedCalls (evs : list VectorService.Event) : list gostring :=
  flat_map (fun ev => match ev with
                      | VectorService.CallGenerateEmbedding text => [text]
                      | _ => []
                      end) evs.

Definition updateCalls (evs : list VectorService.Event) : list UUID :=
  flat_map (fun ev => match ev with
                      | VectorService.CallUpdateEntryVector id => [id]
                      | _ => []
                      end) evs.

Definition embedFailures (evs : list VectorService.Event) : list UUID :=
  flat_map (fun ev => match ev with
                      | VectorService.LogEmbeddingError id => [id]
                      | _ => []
                      end) evs.

Definition updateFailures (evs : list VectorService.Event) : list UUID :=
  flat_map (fun ev => match ev with
                      | VectorService.LogUpdateError id => [id]
                      | _ => []
                      end) evs.

End Spec.

(* ===================================================================== *)
(** * Concrete notes, tables and collaborators *)
(* ===================================================================== *)

Module Scenario.

Import Handler.

Definition user : UUID := VectorService.testUserID.

(** A vector of the 768 dimensions of the [embedding_vector] column: the
    given leading components, then zeros. *)
Definition dimension : nat := Z.to_nat 768.
Definition vec768 (l : list R) : vector := l ++ repeat 0%R (dimension - length l).

Definition note (id : UUID) (title body : string) (updated : Timestamp)
  (v : option vector) (synced : option Timestamp) : Entry :=
  mkEntry id user (lit title) (lit body) 2025%Z 11%Z 23%Z false 1000%Z updated
          v synced.

(** Two embedded notes and the query vector of the distance scenario. *)
Definition noteA : Entry :=
  note 1%N "Roadmap" "Quarterly roadmap review" 2000%Z
       (Some (vec768 [3; 0]%R)) (Some 2500%Z).
Definition noteB : Entry :=
  note 2%N "Standup" "Daily standup notes" 2100%Z
       (Some (vec768 [1; 1]%R)) (Some 2500%Z).
Definition queryVector : vector := vec768 [1; 0]%R.

(** A note never embedded, and a note edited after its last embedding. *)
Definition noteNew : Entry := note 3%N "Draft" "Unsynced draft" 3000%Z None None.
Definition noteEdited : Entry :=
  note 4%N "Retro" "Edited retro" 4000%Z (Some (vec768 [0; 1]%R)) (Some 2500%Z).

(** [noteA] after an edit at time 6000, and [noteNew] after its first
    embedding at time 6000. *)
Definition noteAEdited : Entry :=
  mkEntry 1%N user (lit "Roadmap v2") (lit "Edited") 2025%Z 11%Z 23%Z false
          1000%Z 6000%Z (Some (vec768 [3; 0]%R)) (Some 2500%Z).
Definition noteNewSynced : Entry :=
  mkEntry 3%N user (lit "Draft") (lit "Unsynced draft") 2025%Z 11%Z 23%Z false
          1000%Z 3000%Z (Some (vec768 [1; 0]%R)) (Some 6000%Z).

Definition tableAB : Table := [noteA; noteB].
Definition tableSync : Table := [noteA; noteNew; noteB; noteEdited].
Definition tableOne : Table := [noteNew; noteA].

(** A backend whose embedding model maps every text to [queryVector]. *)
Definition backendUp : VectorService.Backend :=
  VectorService.mkBackend (fun _ => Some queryVector) false (fun _ => false) false
                          (fun i => 5000 + Z.of_nat i)%Z.

(** The same with a database that fails the nearest-neighbour query. *)
Definition backendSearchDown : VectorService.Backend :=
  VectorService.mkBackend (fun _ => Some queryVector) false (fun _ => false) true
                          (fun i => 5000 + Z.of_nat i)%Z.

(** A backend whose model fails on the text of [noteEdited]. *)
Definition backendFlaky : VectorService.Backend :=
  VectorService.mkBackend
    (fun text => if eqs text (VectorService.prepareTextForEmbedding
                                (Title noteEdited) (BodyText noteEdited))
                 then None else Some queryVector)
    false (fun _ => false) false (fun i => 5000 + Z.of_nat i)%Z.

(** [noteNew] once embedded by the second round of a cycle. *)
Definition noteNewCycled : Entry :=
  mkEntry 3%N user (lit "Draft") (lit "Unsynced draft") 2025%Z 11%Z 23%Z false
          1000%Z 3000%Z (Some queryVector) (Some 5001%Z).

Definition question : gostring := lit "What did we decide?".

Definition answerOneMarker : gostring :=
  lit "The meeting covered X." ++ nl ++ lit "CITATIONS: 1, 3".
Definition answerNoMarker : gostring := lit "I could not find anything.".
Definition answerTwoMarkers : gostring :=
  lit "Answer. CITATIONS: 1 CITATIONS: 1".
Definition answerRepeated : gostring := lit "Seen twice. CITATIONS: 1, 1".

Definition deps (b : VectorService.Backend) (reply : option gostring) : Deps :=
  mkDeps b (fun _ => reply) (fun _ => false) 77%N.

End Scenario.

(* ===================================================================== *)
(** * More of Go's library: integers out of strings, UTF-8 *)
(* ===================================================================== *)

Module GoMore.

(** The integer [strconv.Atoi] returns, also when it returns an error: 0
    after a syntax error, the nearest bound of [int] after a range error.
    The handlers that write [year, _ := strconv.Atoi(...)] use this value
    and drop the error. *)
Definition AtoiValue (s : gostring) : Z :=
  match s with
  | [] => 0%Z
  | c :: r =>
      let neg := (byte c =? 45)%N in
      let body := if ((byte c =? 45) || (byte c =? 43))%N then r else s in
      match body with
      | [] => 0%Z
      | _ :: _ =>
          match digits 0 body with
          | None => 0%Z
          | Some n =>
              let v := if neg then (- n)%Z else n in
              Z.max minInt (Z.min maxInt v)
          end
      end
  end.

(** The conversion [int32(x)] of an [int]: the low 32 bits, signed. *)
Definition toInt32 (x : Z) : Z := ((x + 2 ^ 31) mod 2 ^ 32 - 2 ^ 31)%Z.

Definition between (lo hi c : N) : bool := ((lo <=? c) && (c <=? hi))%N.

(** [utf8.DecodeRuneInString], as a [range] loop over a string uses it:
    the width of the UTF-8 encoding [s] starts with, or 0 when [s] starts
    with a byte that begins no valid encoding (Go then yields the rune
    U+FFFD and moves on by one byte).  The second byte of an encoding is
    constrained by the first (the [acceptRanges] of the package). *)
Definition validWidth (s : gostring) : nat :=
  match s with
  | [] => 0
  | c0 :: r =>
      let s0 := byte c0 in
      if (s0 <? 128)%N then 1
      else if (s0 <? 194)%N then 0
      else if (s0 <=? 223)%N then
        match r with
        | c1 :: _ => if between 128 191 (byte c1) then 2 else 0
        | [] => 0
        end
      else if (s0 <=? 239)%N then
        match r with
        | c1 :: c2 :: _ =>
            if between (if (s0 =? 224)%N then 160 else 128)
                       (if (s0 =? 237)%N then 159 else 191) (byte c1)
               && between 128 191 (byte c2)
            then 3 else 0
        | _ => 0
        end
      else if (s0 <=? 244)%N then
        match r with
        | c1 :: c2 :: c3 :: _ =>
            if between (if (s0 =? 240)%N then 144 else 128)
                       (if (s0 =? 244)%N then 143 else 191) (byte c1)
               && between 128 191 (byte c2) && between 128 191 (byte c3)
            then 4 else 0
        | _ => 0
        end
      else 0
  end.

(** The UTF-8 encoding of U+FFFD, which [WriteRune] writes for the rune of
    an invalid byte. *)
Definition runeError : gostring := ["239"; "191"; "189"]%char.

End GoMore.

(* ===================================================================== *)
(** * stripHTML (vectorservice/service.go) and stripHTMLTags (the handlers) *)
(* ===================================================================== *)

Module Html.

Import GoMore.

(** The loop [for _, char := range html]: [inTag] is set by ['<'], reset
    by ['>'], and every other rune is written when [inTag] is not set.
    Every round consumes at least one byte, so [length html] rounds do. *)
Fixpoint stripLoop (fuel : nat) (inTag : bool) (html : gostring) : gostring :=
  match fuel with
  | 0 => []
  | S fuel' =>
      match html with
      | [] => []
      | c :: rest =>
          match validWidth html with
          | 0 => (if inTag then [] else runeError) ++ stripLoop fuel' inTag rest
          | S w =>
              if (byte c =? 60)%N then stripLoop fuel' true rest
              else if (byte c =? 62)%N then stripLoop fuel' false rest
              else (if inTag then [] else firstn (S w) html)
                   ++ stripLoop fuel' inTag (skipn (S w) html)
          end
      end
  end.

Definition stripHTML (html : gostring) : gostring :=
  TrimSpace (stripLoop (length html) false html).

(** The handlers' copy of the same function. *)
Definition stripHTMLTags (html : gostring) : gostring :=
  TrimSpace (stripLoop (length html) false html).

End Html.

(* ===================================================================== *)
(** * More queries on entries *)
(* ===================================================================== *)

Module Queries.

(** [ListEntriesForDay]: [WHERE user_id = $1 AND day_year = $2 AND
    day_month = $3 AND day_day = $4 AND archived = false
    ORDER BY created_at ASC]. *)
Definition onDay (user : UUID) (y m d : Z) (e : Entry) : bool :=
  (UserID e =? user)%N && (DayYear e =? y)%Z && (DayMonth e =? m)%Z
  && (DayDay e =? d)%Z && negb (Archived e).

Definition createdAsc (a b : Entry) : bool := (CreatedAt a <=? CreatedAt b)%Z.

Definition ListEntriesForDay (t : Table) (user : UUID) (y m d : Z) : list Entry :=
  orderBy createdAsc (filter (onDay user y m d) t).

(** [GetDaysWithEntries]: [SELECT DISTINCT day_year, day_month, day_day ...
    WHERE user_id = $1 AND day_year = $2 AND day_month = $3
    AND archived = false ORDER BY day_year, day_month, day_day]. *)
Definition Day : Type := Z * Z * Z.

Definition inMonth (user : UUID) (y m : Z) (e : Entry) : bool :=
  (UserID e =? user)%N && (DayYear e =? y)%Z && (DayMonth e =? m)%Z
  && negb (Archived e).

Definition dayOf (e : Entry) : Day := (DayYear e, DayMonth e, DayDay e).

Definition Day_eq_dec (a b : Day) : {a = b} + {a <> b}.
Proof. repeat decide equality. Defined.

Definition dayLe (a b : Day) : bool :=
  let '(y1, m1, d1) := a in
  let '(y2, m2, d2) := b in
  (y1 <? y2)%Z
  || (y1 =? y2)%Z && ((m1 <? m2)%Z || (m1 =? m2)%Z && (d1 <=? d2)%Z).

Definition GetDaysWithEntries (t : Table) (user : UUID) (y m : Z) : list Day :=
  orderBy dayLe (nodup Day_eq_dec (map dayOf (filter (inMonth user y m) t))).

End Queries.

(* ===================================================================== *)
(** * The entry handlers *)
(* ===================================================================== *)

Module Api.

Import GoMore Handler.

(** What a handler writes with [c.JSON]: an error object, or a body. *)
Inductive Answer (A : Type) :=
| Fail (status : Z) (error : gostring)
| Success (status : Z) (body : A).
Arguments Fail {A}.

(** [normalizeAttendees]. *)
Definition normalizeAttendees (original : gostring) : list gostring :=
  match original with
  | [] => []
  | _ :: _ =>
      fold_left (fun normalized part =>
                   let trimmed := TrimSpace part in
                   if eqs trimmed [] then normalized else normalized ++ [trimmed])
                (Split original (lit ",")) []
  end.

Record CreateEntryRequest := mkCreateEntryRequest {
  C_Title : gostring;
  C_BodyDelta : gostring;
  C_BodyHTML : gostring;
  C_BodyText : gostring;
  C_AttendeesOriginal : gostring;
  C_Type : gostring;
  C_Date : gostring
}.

(** The fields of a PATCH are pointers: [None] is a field left out. *)
Record UpdateEntryRequest := mkUpdateEntryRequest {
  U_Title : option gostring;
  U_BodyDelta : option gostring;
  U_BodyHTML : option gostring;
  U_BodyText : option gostring;
  U_AttendeesOriginal : option gostring;
  U_Type : option gostring
}.

Inductive Query :=
| QListEntriesForDay
| QCreateEntry
| QGetEntry
| QUpdateEntry
| QSoftDeleteEntry
| QGetDaysWithEntries.

Definition validType (type : gostring) : bool :=
  eqs type (lit "meeting") || eqs type (lit "notes") || eqs type (lit "other").

Section Handlers.
(** [failing q] is the error with which the database fails the query [q]
    of the request, if it does. *)
Variable failing : Query -> option gostring.

Definition getDefaultUserID : UUID := VectorService.testUserID.

(** [ListEntriesForDay]; [dateStr] is the path parameter. *)
Definition ListEntriesForDay (t : Table) (dateStr : gostring)
  : Answer (list EntryResponse) :=
  match Split dateStr (lit "-") with
  | [part0; part1; part2] =>
      let year := AtoiValue part0 in
      let month := AtoiValue part1 in
      let day := AtoiValue part2 in
      match failing QListEntriesForDay with
      | Some err => Fail 500 err
      | None =>
          Success 200
            (map entryToResponse
                 (Queries.ListEntriesForDay t getDefaultUserID
                    (toInt32 year) (toInt32 month) (toInt32 day)))
      end
  | _ => Fail 400 (lit "invalid date format")
  end.

(** [CreateEntry]; [bound] is what [ShouldBindJSON] made of the body (an
    error message, or the request), [id] the fresh [gen_random_uuid()] and
    [now] the [NOW()] of the insert.  The sanitized HTML, the Quill delta,
    the attendees and the type go to columns outside the table model. *)
Definition CreateEntry (t : Table) (id : UUID) (now : Timestamp)
  (bound : gostring + CreateEntryRequest) : Table * Answer EntryResponse :=
  match bound with
  | inl err => (t, Fail 400 err)
  | inr req =>
      match Split (C_Date req) (lit "-") with
      | [part0; part1; part2] =>
          let year := AtoiValue part0 in
          let month := AtoiValue part1 in
          let day := AtoiValue part2 in
          if negb (validType (C_Type req))
          then (t, Fail 400 (lit "type must be meeting, notes, or other"))
          else
            match failing QCreateEntry with
            | Some err => (t, Fail 500 err)
            | None =>
                (Db.CreateEntry t id getDefaultUserID (C_Title req) (C_BodyText req)
                                (toInt32 year) (toInt32 month) (toInt32 day) now,
                 Success 201
                   (entryToResponse
                      (mkEntry id getDefaultUserID (C_Title req) (C_BodyText req)
                               (toInt32 year) (toInt32 month) (toInt32 day)
                               false now now None None)))
            end
      | _ => (t, Fail 400 (lit "invalid date format, expected YYYY-MM-DD"))
      end
  end.

Definition orElse (A : Type) (field : option A) (existing : A) : A :=
  match field with
  | Some v => v
  | None => existing
  end.

(** [UpdateEntry]; [idParam] is the result of [uuid.Parse] on the path
    parameter.  The [UPDATE ... RETURNING *] is a [:one] query: without a
    row it is an error. *)
Definition UpdateEntry (t : Table) (now : Timestamp) (idParam : option UUID)
  (bound : gostring + UpdateEntryRequest) : Table * Answer EntryResponse :=
  match idParam with
  | None => (t, Fail 400 (lit "invalid entry ID"))
  | Some entryID =>
      match bound with
      | inl err => (t, Fail 400 err)
      | inr req =>
          match (match failing QGetEntry with
                 | Some _ => None
                 | None => GetEntry t entryID
                 end) with
          | None => (t, Fail 404 (lit "entry not found"))
          | Some existing =>
              let title := orElse (U_Title req) (Title existing) in
              let bodyText := orElse (U_BodyText req) (BodyText existing) in
              if match U_Type req with
                 | Some type => negb (validType type)
                 | None => false
                 end
              then (t, Fail 400 (lit "type must be meeting, notes, or other"))
              else
                match failing QUpdateEntry with
                | Some err => (t, Fail 500 err)
                | None =>
                    let t' := Db.UpdateEntry t entryID title bodyText now in
                    match GetEntry t' entryID with
                    | Some entry => (t', Success 200 (entryToResponse entry))
                    | None => (t', Fail 500 (lit "no rows in result set"))
                    end
                end
          end
      end
  end.

(** [DeleteEntry]: status 204 with no body. *)
Definition DeleteEntry (t : Table) (now : Timestamp) (idParam : option UUID)
  : Table * Answer unit :=
  match idParam with
  | None => (t, Fail 400 (lit "invalid entry ID"))
  | Some entryID =>
      match failing QSoftDeleteEntry with
      | Some err => (t, Fail 500 err)
      | None => (SoftDeleteEntry t entryID now, Success 204 tt)
      end
  end.

(** [GetDaysWithEntries]; [yearMonthStr] is the path parameter. *)
Definition GetDaysWithEntries (t : Table) (yearMonthStr : gostring)
  : Answer (list Z) :=
  match Split yearMonthStr (lit "-") with
  | [part0; part1] =>
      let year := AtoiValue part0 in
      let month := AtoiValue part1 in
      match failing QGetDaysWithEntries with
      | Some err => Fail 500 err
      | None =>
          Success 200
            (map (fun day : Queries.Day => snd day)
                 (Queries.GetDaysWithEntries t getDefaultUserID
                    (toInt32 year) (toInt32 month)))
      end
  | _ => Fail 400 (lit "invalid year-month format")
  end.
End Handlers.

End Api.

(* ===================================================================== *)
(** * cmd/server/main.go: the resources of the server and their reload *)
(* ===================================================================== *)

Module Server.

Import VectorService.

(** The resources that [Reload] tears down and sets up: the vector service
    and the connection pool ([Some true]: open, [Some false]: closed).
    [queries] wraps the pool, so it is set exactly when the pool is. *)
Record AppResources := mkApp {
  vectorSvc : option Service;
  dbpool : option bool
}.

(** What the outside world answers to one start or reload: whether the
    loaded configuration validates, whether [pgxpool.New] and [Ping]
    succeed, and the [EnableVectorSearch] of the configuration. *)
Record World := mkWorld {
  validates : bool;
  connects : bool;
  pings : bool;
  enableVectorSearch : bool
}.

(** [vectorservice.New(...)], started if vector search is enabled. *)
Definition freshService (w : World) : Outcome Service :=
  if enableVectorSearch w then Start New else Done New.

(** The resources with which [runServer] starts. *)
Definition boot (w : World) : Outcome AppResources :=
  if validates w then
    if connects w then
      if pings w then
        match freshService w with
        | Done s => Done (mkApp (Some s) (Some true))
        | Panic => Panic
        end
      else Done (mkApp None None)
    else Done (mkApp None None)
  else Done (mkApp None None).

(** [Reload]: the result is the new state of the resources and whether an
    error is returned.  The old service is stopped and the old pool closed
    before the new configuration is looked at. *)
Definition Reload (app : AppResources) (w : World) : Outcome (AppResources * bool) :=
  match (match vectorSvc app with
         | Some s => match Stop s with
                     | Done s' => Done (Some s')
                     | Panic => Panic
                     end
         | None => Done None
         end) with
  | Panic => Panic
  | Done stopped =>
      let closed := match dbpool app with
                    | Some _ => Some false
                    | None => None
                    end in
      if negb (validates w) then Done (mkApp stopped closed, true)
      else if negb (connects w) then Done (mkApp stopped closed, true)
      else if negb (pings w) then Done (mkApp stopped closed, true)
      else match freshService w with
           | Done s => Done (mkApp (Some s) (Some true), false)
           | Panic => Panic
           end
  end.

(** A start followed by reloads. *)
Fixpoint reloads (app : AppResources) (ws : list World) : Outcome AppResources :=
  match ws with
  | [] => Done app
  | w :: ws' =>
      match Reload app w with
      | Done (app', _) => reloads app' ws'
      | Panic => Panic
      end
  end.

Definition serve (w : World) (ws : list World) : Outcome AppResources :=
  match boot w with
  | Done app => reloads app ws
  | Panic => Panic
  end.

End Server.

(* ===================================================================== *)
(** * Notions used by the further properties *)
(* ===================================================================== *)

Module Props.




(** The columns of a row other than the vector and its watermark. *)
Definition content (e : Entry)
  : UUID * UUID * gostring * gostring * (Z * Z * Z) * bool * Timestamp * Timestamp :=
  (ID e, UserID e, Title e, BodyText e, (DayYear e, DayMonth e, DayDay e),
   Archived e, CreatedAt e, UpdatedAt e).

(** A row of the batch for which both the embedding and the update work. *)
Definition succeeds (b : VectorService.Backend)
  (entry : GetEntriesNeedingVectorsRow) : bool :=
  negb (Spec.embedFails b entry) && negb (VectorService.updateFails b (N_ID entry)).

(** What the rounds [i], [i+1], ... of a cycle over [entries] do to one row
    of the table. *)
Fixpoint cycleOnRow (b : VectorService.Backend) (i : nat)
  (entries : list GetEntriesNeedingVectorsRow) (e : Entry) : Entry :=
  match entries with
  | [] => e
  | entry :: rest =>
      cycleOnRow b (S i) rest
        (match VectorService.GenerateEmbedding b (Spec.textOf entry) with
         | Some embedding =>
             if VectorService.updateFails b (N_ID entry) then e
             else if (ID e =? N_ID entry)%N
                  then setVector (Some embedding) (VectorService.clock b i) e
                  else e
         | None => e
         end)
  end.

End Props.

(* ===================================================================== *)
(** * Further concrete cases *)
(* ===================================================================== *)

Module Cases.

(** A note created at time 7000 under the unused id 9. *)
Definition newNote : Entry :=
  mkEntry 9%N Scenario.user (lit "New") (lit "Text") 2025%Z 11%Z 24%Z false
          7000%Z 7000%Z None None.

Definition withNewNote (t : Table) : Table :=
  CreateEntry t 9%N Scenario.user (lit "New") (lit "Text") 2025%Z 11%Z 24%Z 7000%Z.

(** A query vector of two components only. *)
Definition shortVector : vector := [1; 0]%R.

(** The one row that searching [Scenario.tableOne] returns. *)
Definition rowA : SearchSimilarEntriesRow :=
  searchRow (Scenario.noteA,
             sqrt (dot (sub (Scenario.vec768 [3; 0]%R) Scenario.queryVector)
                       (sub (Scenario.vec768 [3; 0]%R) Scenario.queryVector))).

(** A database that fails no query. *)
Definition healthy : Api.Query -> option gostring := fun _ => None.

(** A request that creates a note on a day written with a word for the
    month, and a PATCH that leaves every field out. *)
Definition createRequest : Api.CreateEntryRequest :=
  Api.mkCreateEntryRequest (lit "New") (lit "{}") (lit "<p>Text</p>") (lit "Text")
                           (lit "Ann, Bob") (lit "notes") (lit "2025-nov-24").

Definition emptyPatch : Api.UpdateEntryRequest :=
  Api.mkUpdateEntryRequest None None None None None None.

(** [Scenario.noteA] after a PATCH at time 6000 that leaves every field
    out. *)
Definition noteATouched : Entry :=
  mkEntry 1%N Scenario.user (lit "Roadmap") (lit "Quarterly roadmap review")
          2025%Z 11%Z 23%Z false 1000%Z 6000%Z
          (Some (Scenario.vec768 [3; 0]%R)) (Some 2500%Z).

(** A configuration that validates with a database that answers, and one
    that does not validate. *)
Definition goodWorld : Server.World := Server.mkWorld true true true true.
Definition badWorld : Server.World := Server.mkWorld false true true true.

End Cases.

(* ===================================================================== *)
(** * Facts about the Go string functions *)
(* ===================================================================== *)

Section StringFacts.

Lemma eqs_eq (a b : gostring) : eqs a b = true <-> a = b.
Proof.
  revert b; induction a as [|x a IH]; intros [|y b]; simpl; split;
    try congruence; try reflexivity.
  - intros H. apply andb_true_iff in H as [Hx Hab].
    apply Ascii.eqb_eq in Hx. apply IH in Hab. congruence.
  - intros H. injection H as -> ->. rewrite Ascii.eqb_refl. simpl.
    now apply IH.
Qed.

Lemma HasPrefix_app (p r : gostring) : HasPrefix (p ++ r) p = true.
Proof.
  induction p as [|c p IH]; simpl; [reflexivity|].
  now rewrite Ascii.eqb_refl.
Qed.

Lemma HasPrefix_inv (s p : gostring) :
  HasPrefix s p = true -> s = p ++ skipn (length p) s.
Proof.
  revert s; induction p as [|c p IH]; intros s H; simpl in *; [reflexivity|].
  destruct s as [|x s]; [discriminate|].
  apply andb_true_iff in H as [Hc Hp]. apply Ascii.eqb_eq in Hc. subst x.
  simpl. f_equal. now apply IH.
Qed.

Lemma Index_cons (c : ascii) (s sep : gostring) :
  Index (c :: s) sep =
  if HasPrefix (c :: s) sep then Some 0 else option_map S (Index s sep).
Proof. reflexivity. Qed.

Lemma occurrences_cons (c : ascii) (s sep : gostring) :
  occurrences (c :: s) sep =
  (if HasPrefix (c :: s) sep then 1 else 0) + occurrences s sep.
Proof. reflexivity. Qed.

(** [Index] finds nothing exactly when there is no occurrence. *)
Lemma Index_None_iff (s sep : gostring) :
  Index s sep = None <-> occurrences s sep = 0.
Proof.
  induction s as [|c s IH].
  - simpl. destruct (HasPrefix [] sep); split; intros; try discriminate; auto.
  - rewrite Index_cons, occurrences_cons.
    destruct (HasPrefix (c :: s) sep).
    + split; intros; discriminate.
    + simpl. destruct (Index s sep) eqn:E; simpl; split; intros H;
        try discriminate; try reflexivity.
      * apply IH in H. discriminate.
      * now apply IH.
Qed.

(** What [Index] returns is the position of the left-most occurrence. *)
Lemma Index_Some (s sep : gostring) (m : nat) :
  Index s sep = Some m ->
  s = firstn m s ++ sep ++ skipn (m + length sep) s
  /\ occurrences s sep = occurrences (skipn m s) sep.
Proof.
  revert m; induction s as [|c s IH]; intros m.
  - intros H. simpl in H. destruct (HasPrefix [] sep) eqn:E; [|discriminate].
    injection H as <-. split; [|reflexivity]. simpl. now apply HasPrefix_inv.
  - rewrite Index_cons. destruct (HasPrefix (c :: s) sep) eqn:E.
    + intros [= <-]. split; [|reflexivity]. simpl firstn.
      now apply HasPrefix_inv.
    + destruct (Index s sep) as [k|] eqn:Ek; [|discriminate].
      cbn [option_map]. intros [= <-]. destruct (IH k eq_refl) as [H1 H2].
      split.
      * cbn [firstn skipn Nat.add app]. f_equal. exact H1.
      * rewrite occurrences_cons, E. cbn [skipn Nat.add]. exact H2.
Qed.

Lemma occurrences_app_ge (pre s sep : gostring) :
  occurrences s sep <= occurrences (pre ++ s) sep.
Proof.
  induction pre as [|c pre IH]; [apply Nat.le_refl|].
  simpl app. rewrite occurrences_cons. lia.
Qed.

(** A unique occurrence is the one [Index] finds. *)
Lemma Index_unique_occurrence (pre post sep : gostring) :
  occurrences (pre ++ sep ++ post) sep = 1 ->
  Index (pre ++ sep ++ post) sep = Some (length pre).
Proof.
  induction pre as [|c pre IH]; intros H.
  - simpl app. destruct (sep ++ post) as [|x r] eqn:E.
    + destruct sep; [reflexivity|discriminate].
    + rewrite Index_cons, <- E, HasPrefix_app. reflexivity.
  - simpl app in *. rewrite occurrences_cons in H. rewrite Index_cons.
    pose proof (occurrences_app_ge pre (sep ++ post) sep) as Hge.
    assert (1 <= occurrences (sep ++ post) sep) as H1.
    { destruct (sep ++ post) as [|x r] eqn:E.
      - destruct sep; [|discriminate]. simpl. lia.
      - rewrite occurrences_cons, <- E, HasPrefix_app. lia. }
    destruct (HasPrefix (c :: pre ++ sep ++ post) sep); [lia|].
    rewrite IH by lia. reflexivity.
Qed.

(** ** [Count] and [Split] for a non-empty separator *)

Lemma Index_Some_length (s sep : gostring) (m : nat) :
  Index s sep = Some m -> m + length sep <= length s.
Proof.
  assert (forall r, HasPrefix r sep = true -> length sep <= length r) as Hp.
  { intros r H. apply HasPrefix_inv in H. apply (f_equal (@length _)) in H.
    rewrite length_app in H. lia. }
  revert m; induction s as [|c s IH]; intros m H.
  - simpl in H. destruct (HasPrefix [] sep) eqn:E; [|discriminate].
    injection H as <-. apply Hp in E. simpl in *. lia.
  - rewrite Index_cons in H. destruct (HasPrefix (c :: s) sep) eqn:E.
    + injection H as <-. now apply Hp in E.
    + destruct (Index s sep) as [k|]; [|discriminate].
      injection H as <-. specialize (IH k eq_refl). simpl. lia.
Qed.

Lemma countLoop_fuel (sep : gostring) (f1 f2 : nat) (s : gostring) :
  sep <> [] -> length s <= f1 -> length s <= f2 ->
  countLoop f1 s sep = countLoop f2 s sep.
Proof.
  intros Hsep. revert f2 s.
  induction f1 as [|f1 IH]; intros f2 s H1 H2.
  - destruct s; [|simpl in H1; lia].
    destruct f2; [reflexivity|]. simpl.
    destruct sep; [congruence|reflexivity].
  - destruct f2 as [|f2].
    + destruct s; [|simpl in H2; lia]. simpl.
      destruct sep; [congruence|reflexivity].
    + simpl. destruct (Index s sep) as [m|] eqn:E; [|reflexivity].
      f_equal. pose proof (Index_Some_length _ _ E) as Hl.
      assert (0 < length sep) by (destruct sep; [congruence|simpl; lia]).
      apply IH; rewrite length_skipn; lia.
Qed.

Lemma Count_None (s sep : gostring) : Index s sep = None -> Count s sep = 0.
Proof.
  unfold Count. intros H. destruct (length s); simpl; [reflexivity|].
  now rewrite H.
Qed.

Lemma Count_Some (s sep : gostring) (m : nat) :
  sep <> [] -> Index s sep = Some m ->
  Count s sep = S (Count (skipn (m + length sep) s) sep).
Proof.
  intros Hsep H. unfold Count.
  pose proof (Index_Some_length _ _ H) as Hl.
  assert (0 < length sep) by (destruct sep; [congruence|simpl; lia]).
  destruct (length s) as [|n] eqn:En; [lia|].
  simpl. rewrite H. f_equal.
  apply countLoop_fuel; [exact Hsep| |apply Nat.le_refl].
  rewrite length_skipn. lia.
Qed.

Lemma Split_None (s sep : gostring) :
  sep <> [] -> Index s sep = None -> Split s sep = [s].
Proof.
  intros Hsep H. unfold Split. destruct sep; [congruence|].
  rewrite Count_None by exact H. reflexivity.
Qed.

Lemma Split_Some (s sep : gostring) (m : nat) :
  sep <> [] -> Index s sep = Some m ->
  Split s sep = firstn m s :: Split (skipn (m + length sep) s) sep.
Proof.
  intros Hsep H. unfold Split. destruct sep as [|c sep]; [congruence|].
  rewrite Count_Some with (m := m) by assumption. simpl. rewrite H.
  reflexivity.
Qed.

Lemma Split_not_nil (s sep : gostring) : Split s sep <> [] \/ (s = [] /\ sep = []).
Proof.
  unfold Split. destruct sep.
  - destruct s; [right; auto|left; discriminate].
  - left. destruct (Count s (a :: sep)); simpl; [discriminate|].
    destruct (Index s (a :: sep)); discriminate.
Qed.

(** ** [TrimSpace] trims all there is to trim *)

Lemma leadingSpace_le (s : gostring) : leadingSpace s <= length s.
Proof.
  unfold leadingSpace. destruct s as [|c [|d [|e r]]]; simpl; try lia.
  - destruct (asciiSpace c); lia.
  - destruct (asciiSpace c); [lia|]. destruct (space2 c d); lia.
  - destruct (asciiSpace c); [lia|]. destruct (space2 c d); [lia|].
    destruct (space3 c d e); lia.
Qed.

Lemma trailingSpace_le (r : gostring) : trailingSpace r <= length r.
Proof.
  unfold trailingSpace. destruct r as [|c [|d [|e r]]]; simpl; try lia.
  - destruct (asciiSpace c); lia.
  - destruct (asciiSpace c); [lia|]. destruct (space2 d c); lia.
  - destruct (asciiSpace c); [lia|]. destruct (space2 d c); [lia|].
    destruct (space3 e d c); lia.
Qed.

Lemma trimLeft_done (fuel : nat) (s : gostring) :
  length s <= fuel -> leadingSpace (trimLeft fuel s) = 0.
Proof.
  revert s; induction fuel as [|fuel IH]; intros s Hs.
  - destruct s; [reflexivity|simpl in Hs; lia].
  - cbn [trimLeft]. pose proof (leadingSpace_le s) as Hle.
    destruct (leadingSpace s) as [|w] eqn:E; [exact E|].
    apply IH. rewrite length_skipn. lia.
Qed.

Lemma trimRightRev_done (fuel : nat) (r : gostring) :
  length r <= fuel -> trailingSpace (trimRightRev fuel r) = 0.
Proof.
  revert r; induction fuel as [|fuel IH]; intros r Hr.
  - destruct r; [reflexivity|simpl in Hr; lia].
  - cbn [trimRightRev]. pose proof (trailingSpace_le r) as Hle.
    destruct (trailingSpace r) as [|w] eqn:E; [exact E|].
    apply IH. rewrite length_skipn. lia.
Qed.

(** The result of [TrimSpace] ends with no white-space rune. *)
Lemma TrimSpace_trailing (s : gostring) : trailingSpace (rev (TrimSpace s)) = 0.
Proof.
  unfold TrimSpace. rewrite rev_involutive. apply trimRightRev_done.
  now rewrite length_rev.
Qed.

Example Split_commas :
  Split (lit "a,b,,c") (lit ",") = [lit "a"; lit "b"; lit ""; lit "c"].
Proof. reflexivity. Qed.

Example TrimSpace_ascii : TrimSpace (lit "  1, 3 ") = lit "1, 3".
Proof. reflexivity. Qed.

(** U+00A0 before and U+2003 after the text. *)
Example TrimSpace_unicode :
  TrimSpace (["194"; "160"]%char ++ lit "7" ++ ["226"; "128"; "131"]%char) = lit "7".
Proof. reflexivity. Qed.

Example Atoi_cases :
  Atoi (lit "+12") = Some 12%Z /\ Atoi (lit "-3") = Some (-3)%Z
  /\ Atoi (lit "007") = Some 7%Z /\ Atoi (lit "1_0") = None
  /\ Atoi (lit "") = None /\ Atoi (lit "-") = None /\ Atoi (lit "none") = None
  /\ Atoi (lit "9223372036854775807") = Some 9223372036854775807%Z
  /\ Atoi (lit "9223372036854775808") = None.
Proof. repeat split; reflexivity. Qed.

End StringFacts.

(* ===================================================================== *)
(** * Facts about the citation parser *)
(* ===================================================================== *)

Section CitationFacts.

Import Handler.

Lemma marker_not_nil : marker <> [].
Proof. discriminate. Qed.

(** The marker does not overlap itself: after an occurrence, the next one
    starts at or after its end. *)
Lemma occurrences_marker_app (post : gostring) :
  occurrences (marker ++ post) marker = S (occurrences post marker).
Proof. reflexivity. Qed.

Lemma Split_marker_none (s : gostring) :
  occurrences s marker = 0 -> Split s marker = [s].
Proof.
  intros H. apply Split_None; [exact marker_not_nil|]. now apply Index_None_iff.
Qed.

Lemma Split_marker_one (pre post : gostring) :
  occurrences (pre ++ marker ++ post) marker = 1 ->
  Split (pre ++ marker ++ post) marker = [pre; post].
Proof.
  intros H.
  pose proof (Index_unique_occurrence pre post marker H) as Hi.
  rewrite Split_Some with (m := length pre) by (exact marker_not_nil || exact Hi).
  rewrite firstn_app, firstn_all, Nat.sub_diag, firstn_O, app_nil_r.
  rewrite skipn_app, skipn_all2, app_nil_l by lia.
  replace (length pre + length marker - length pre) with (length marker) by lia.
  rewrite skipn_app, skipn_all, Nat.sub_diag, skipn_O, app_nil_l.
  rewrite Split_marker_none; [reflexivity|].
  pose proof (occurrences_app_ge pre (marker ++ post) marker) as Hge.
  rewrite occurrences_marker_app in Hge. lia.
Qed.

Lemma Split_marker_many (s : gostring) :
  2 <= occurrences s marker ->
  exists a b c rest, Split s marker = a :: b :: c :: rest.
Proof.
  intros H.
  destruct (Index s marker) as [m|] eqn:Em;
    [|apply Index_None_iff in Em; lia].
  destruct (Index_Some _ _ Em) as [Hs Ho].
  set (post := skipn (m + length marker) s) in *.
  assert (skipn m s = marker ++ post) as Hskip.
  { rewrite Hs at 1. pose proof (Index_Some_length _ _ Em) as Hl.
    rewrite skipn_app, firstn_length_le by lia.
    rewrite skipn_all2 by (rewrite firstn_length_le; lia).
    now rewrite Nat.sub_diag, skipn_O. }
  rewrite Hskip, occurrences_marker_app in Ho.
  destruct (Index post marker) as [k|] eqn:Ek;
    [|apply Index_None_iff in Ek; lia].
  rewrite Split_Some with (m := m) by (exact marker_not_nil || exact Em).
  fold post.
  rewrite Split_Some with (m := k) by (exact marker_not_nil || exact Ek).
  destruct (Split_not_nil (skipn (k + length marker) post) marker) as [Hn|[_ Hn]];
    [|discriminate].
  destruct (Split (skipn (k + length marker) post) marker) as [|c rest];
    [congruence|].
  now exists (firstn m s), (firstn k post), c, rest.
Qed.

(** The loop over the tokens appends, in order, [n - 1] for every token
    that parses as an integer [n] with [1 <= n <= offered]. *)
Lemma citeStep_fold (offered : nat) (toks : list gostring) (acc : list Z) :
  fold_left (citeStep offered) toks acc =
  acc ++ map (fun n => n - 1)%Z
           (filter (fun n => (1 <=? n) && (n <=? Z.of_nat offered))%Z
                   (Spec.integers (map TrimSpace toks))).
Proof.
  revert acc; induction toks as [|tok toks IH]; intros acc; simpl.
  - now rewrite app_nil_r.
  - rewrite IH. unfold citeStep.
    destruct (Atoi (TrimSpace tok)) as [num|]; simpl; [|reflexivity].
    replace (0 <? num)%Z with (1 <=? num)%Z
      by (destruct (Z.leb_spec 1 num), (Z.ltb_spec 0 num); lia || reflexivity).
    destruct ((1 <=? num) && (num <=? Z.of_nat offered))%Z; simpl.
    + now rewrite <- app_assoc.
    + reflexivity.
Qed.

Lemma parseCitations_parts (llmResponse part0 part1 : gostring) (offered : nat) :
  Split llmResponse marker = [part0; part1] ->
  parseCitations llmResponse offered =
  (TrimSpace part0, map (fun n => n - 1)%Z (Spec.keptOrdinals part1 offered)).
Proof.
  intros H. unfold parseCitations. rewrite H.
  unfold Spec.keptOrdinals, Spec.tokens.
  destruct (eqs (TrimSpace part1) (lit "none")) eqn:E1; simpl.
  - apply eqs_eq in E1. rewrite E1. reflexivity.
  - destruct (eqs (TrimSpace part1) []) eqn:E2; simpl.
    + apply eqs_eq in E2. rewrite E2. reflexivity.
    + now rewrite citeStep_fold.
Qed.

Lemma parseCitations_other (llmResponse : gostring) (offered : nat) :
  length (Split llmResponse marker) <> 2 ->
  parseCitations llmResponse offered = (llmResponse, []).
Proof.
  intros H. unfold parseCitations.
  destruct (Split llmResponse marker) as [|a [|b [|c r]]]; simpl in H;
    try reflexivity; lia.
Qed.

(** Every cited index is within the retrieved entries. *)
Lemma parseCitations_in_range (llmResponse : gostring) (offered : nat) :
  Forall (fun idx => 0 <= idx < Z.of_nat offered)%Z
         (snd (parseCitations llmResponse offered)).
Proof.
  destruct (Nat.eq_dec (length (Split llmResponse marker)) 2) as [H2|H2].
  - destruct (Split llmResponse marker) as [|a [|b [|c r]]] eqn:E;
      try discriminate.
    rewrite parseCitations_parts with (part0 := a) (part1 := b) by exact E.
    simpl.
    apply Forall_forall. intros idx Hin.
    apply in_map_iff in Hin as [n [<- Hn]].
    apply filter_In in Hn as [_ Hn].
    apply andb_true_iff in Hn as [Ha Hb].
    apply Z.leb_le in Ha, Hb. lia.
  - rewrite parseCitations_other by exact H2. constructor.
Qed.

Section Sources.
Variable d : Deps.
Variable t : Table.
Variable similarEntries : list SearchSimilarEntriesRow.

Let fetched := Spec.fetched d t similarEntries.

Lemma sourceEntries_in_range (citedIndices : list Z) :
  Forall (fun idx => 0 <= idx < Z.of_nat (length similarEntries))%Z citedIndices ->
  exists logs,
    sourceEntries d t similarEntries citedIndices
    = Done (logs, flat_map fetched citedIndices).
Proof.
  induction 1 as [|idx rest Hidx _ IH]; simpl.
  - now exists [].
  - destruct IH as [logs ->]. unfold index, fetched, Spec.fetched.
    destruct (Z.ltb_spec idx 0) as [Hneg|_]; [lia|].
    destruct (nth_error similarEntries (Z.to_nat idx)) as [entry|] eqn:E.
    + destruct (getEntry d t (S_ID entry)); eexists; reflexivity.
    + apply nth_error_None in E. lia.
Qed.

Lemma resolve_fetched (ordinals : list Z) :
  Spec.resolve d t similarEntries ordinals
  = flat_map fetched (map (fun n => n - 1)%Z ordinals).
Proof.
  unfold Spec.resolve. induction ordinals as [|n l IH]; simpl; [reflexivity|].
  now rewrite IH.
Qed.
End Sources.

(** The reply of [Chat] once the search and the completion are done. *)
Lemma Chat_answer (d : Deps) (t : Table) (message llmResponse : gostring) :
  message <> [] ->
  ollamaChat d (promptBuilder (similarEntriesFor d t message) message)
    = Some llmResponse ->
  let similarEntries := similarEntriesFor d t message in
  let parsed := parseCitations llmResponse (length similarEntries) in
  exists logs,
    Chat d t (Some message)
    = Done (logs, StatusOK (mkChatResponse (fst parsed)
                              (flat_map (Spec.fetched d t similarEntries) (snd parsed))
                              (newMessageID d))).
Proof.
  intros Hm Hllm similarEntries parsed. unfold Chat.
  destruct message as [|c m]; [congruence|].
  cbv zeta. rewrite Hllm. fold similarEntries. fold parsed.
  destruct (sourceEntries_in_range d t similarEntries
              (parseCitations_in_range llmResponse (length similarEntries)))
    as [logs Hs].
  fold parsed in Hs. destruct parsed as [actualResponse citedIndices].
  cbn [fst snd] in *. rewrite Hs. eexists. reflexivity.
Qed.

End CitationFacts.

(* ===================================================================== *)
(** * The answering pipeline *)
(* ===================================================================== *)

Section ChatFacts.

Import Handler.

Example parse_spec_example_1 :
  parseCitations Scenario.answerOneMarker 3 = (lit "The meeting covered X.", [0; 2]%Z).
Proof. vm_compute. reflexivity. Qed.

Example parse_spec_example_2 :
  parseCitations (lit "... CITATIONS: 5") 3 = (lit "...", []).
Proof. vm_compute. reflexivity. Qed.

Example parse_spec_example_3 :
  parseCitations Scenario.answerNoMarker 3 = (Scenario.answerNoMarker, []).
Proof. vm_compute. reflexivity. Qed.

(** [Chat] never panics: the index of [similarEntries[idx]] is in range. *)
Lemma Chat_never_panics (d : Deps) (t : Table) (req : option gostring) :
  Chat d t req <> Panic.
Proof.
  destruct req as [message|]; [|discriminate].
  destruct message as [|c m] eqn:Em; [discriminate|]. rewrite <- Em.
  destruct (ollamaChat d (promptBuilder (similarEntriesFor d t message) message))
    as [llmResponse|] eqn:E.
  - assert (message <> []) as Hm by (rewrite Em; discriminate).
    destruct (@Chat_answer d t message llmResponse Hm E) as [logs ->].
    discriminate.
  - unfold Chat. rewrite Em in *. cbv zeta. rewrite E. discriminate.
Qed.

(** One marker: the reply holds the trimmed text before it and the
    resolved kept ordinals of the segment after it. *)
Lemma Chat_one_marker (d : Deps) (t : Table)
  (message llmResponse pre post : gostring) :
  message <> [] ->
  ollamaChat d (promptBuilder (similarEntriesFor d t message) message)
    = Some llmResponse ->
  llmResponse = pre ++ marker ++ post ->
  occurrences llmResponse marker = 1 ->
  exists logs,
    Chat d t (Some message)
    = Done (logs,
            StatusOK (mkChatResponse
                        (TrimSpace pre)
                        (Spec.resolve d t (similarEntriesFor d t message)
                           (Spec.keptOrdinals post
                              (length (similarEntriesFor d t message))))
                        (newMessageID d))).
Proof.
  intros Hm Hllm -> Hocc.
  destruct (@Chat_answer d t message (pre ++ marker ++ post) Hm Hllm)
    as [logs Hchat].
  exists logs. rewrite Hchat.
  rewrite parseCitations_parts with (part0 := pre) (part1 := post)
    by (apply Split_marker_one; exact Hocc).
  cbn [fst snd]. now rewrite resolve_fetched.
Qed.

(** C3: for a model response with exactly one [CITATIONS:] marker, the
    answer is the trimmed text before the marker, and the segment after it
    is split on commas, each token trimmed, the tokens that parse as an
    integer [n] with [1 <= n <= N] (N the number of retrieved notes) kept,
    and each kept ordinal resolved in order to the retrieved note at index
    [n-1]; for a response without the marker, the whole response is the
    answer and no note is cited. *)
Theorem C3_citation_parsing (d : Deps) (t : Table) (message llmResponse : gostring) :
  message <> [] ->
  ollamaChat d (promptBuilder (similarEntriesFor d t message) message)
    = Some llmResponse ->
  let retrieved := similarEntriesFor d t message in
  (forall pre post,
      llmResponse = pre ++ marker ++ post ->
      occurrences llmResponse marker = 1 ->
      exists logs,
        Chat d t (Some message)
        = Done (logs,
                StatusOK (mkChatResponse
                            (TrimSpace pre)
                            (Spec.resolve d t retrieved
                               (Spec.keptOrdinals post (length retrieved)))
                            (newMessageID d))))
  /\ (occurrences llmResponse marker = 0 ->
      exists logs,
        Chat d t (Some message)
        = Done (logs, StatusOK (mkChatResponse llmResponse [] (newMessageID d)))).
Proof.
  intros Hm Hllm retrieved.
  split.
  - intros pre post Hresp Hocc. now apply Chat_one_marker with llmResponse.
  - intros Hocc. destruct (@Chat_answer d t message llmResponse Hm Hllm) as [logs Hchat].
    exists logs. rewrite Hchat.
    rewrite parseCitations_other
      by (rewrite Split_marker_none by exact Hocc; discriminate).
    reflexivity.
Qed.

Lemma C3_citation_parsing_witness :
  exists logs,
    Chat (Scenario.deps Scenario.backendUp (Some Scenario.answerOneMarker))
         Scenario.tableOne (Some Scenario.question)
    = Done (logs,
            StatusOK (mkChatResponse (lit "The meeting covered X.")
                                     [entryToResponse Scenario.noteA] 77%N)).
Proof.
  refine (proj1 (@C3_citation_parsing
                   (Scenario.deps Scenario.backendUp (Some Scenario.answerOneMarker))
                   Scenario.tableOne Scenario.question Scenario.answerOneMarker
                   _ _)
                (lit "The meeting covered X." ++ nl) (lit " 1, 3") _ _).
  - discriminate.
  - reflexivity.
  - reflexivity.
  - reflexivity.
Defined.

(** C4 fails as stated: with two markers the handler does not keep the
    text before the first one and cites nothing, where the claim expects the
    answer ["Answer."] and the note cited by ordinal 1. *)
Lemma C4_counterexample :
  occurrences Scenario.answerTwoMarkers marker = 2
  /\ Spec.keptOrdinals (lit " 1 ") 1 = [1%Z]
  /\ Chat (Scenario.deps Scenario.backendUp (Some Scenario.answerTwoMarkers))
          Scenario.tableOne (Some Scenario.question)
     = Done ([LogSearchFound 1; LogCited 0 1],
             StatusOK (mkChatResponse (lit "Answer. CITATIONS: 1 CITATIONS: 1")
                                      [] 77%N))
  /\ lit "Answer. CITATIONS: 1 CITATIONS: 1" <> lit "Answer. "
  /\ lit "Answer. CITATIONS: 1 CITATIONS: 1" <> TrimSpace (lit "Answer. ").
Proof. repeat split; try reflexivity; discriminate. Qed.

(** C4, amended: for a model response with two or more [CITATIONS:]
    markers the handler takes the branch of a response it cannot split in
    two: the whole response, markers included, is the answer, no note is
    cited, and the call returns normally (it does not panic). *)
Theorem C4_several_markers (d : Deps) (t : Table) (message llmResponse : gostring) :
  message <> [] ->
  ollamaChat d (promptBuilder (similarEntriesFor d t message) message)
    = Some llmResponse ->
  2 <= occurrences llmResponse marker ->
  exists logs,
    Chat d t (Some message)
    = Done (logs, StatusOK (mkChatResponse llmResponse [] (newMessageID d))).
Proof.
  intros Hm Hllm Hocc.
  destruct (@Chat_answer d t message llmResponse Hm Hllm) as [logs Hchat].
  exists logs. rewrite Hchat.
  destruct (@Split_marker_many llmResponse Hocc) as (a & b & c & rest & Hs).
  rewrite parseCitations_other by (rewrite Hs; simpl; lia).
  reflexivity.
Qed.

Lemma C4_several_markers_witness :
  exists logs,
    Chat (Scenario.deps Scenario.backendUp (Some Scenario.answerTwoMarkers))
         Scenario.tableOne (Some Scenario.question)
    = Done (logs, StatusOK (mkChatResponse Scenario.answerTwoMarkers [] 77%N)).
Proof.
  refine (@C4_several_markers
            (Scenario.deps Scenario.backendUp (Some Scenario.answerTwoMarkers))
            Scenario.tableOne Scenario.question Scenario.answerTwoMarkers _ _ _).
  - discriminate.
  - reflexivity.
  - apply Nat.le_refl.
Defined.

(** C5 fails as stated: the nearest-neighbour query fails and the call
    still answers with status 200. *)
Lemma C5_counterexample :
  VectorService.SearchSimilarEntries Scenario.backendSearchDown Scenario.tableAB
    VectorService.testUserID Scenario.question 5 = None
  /\ Chat (Scenario.deps Scenario.backendSearchDown (Some Scenario.answerNoMarker))
          Scenario.tableAB (Some Scenario.question)
     = Done ([LogSearchError; LogSearchFound 0; LogCited 0 0],
             StatusOK (mkChatResponse (lit "I could not find anything.") [] 77%N)).
Proof. split; reflexivity. Qed.

Lemma parseCitations_nothing_offered (llmResponse : gostring) :
  snd (parseCitations llmResponse 0) = [].
Proof.
  pose proof (parseCitations_in_range llmResponse 0) as H.
  destruct (snd (parseCitations llmResponse 0)) as [|idx l]; [reflexivity|].
  inversion H; subst. simpl in *. lia.
Qed.

(** C5, amended: when the search of the vector service fails, the handler
    logs the failure and goes on with no retrieved entry: the prompt holds
    no context block, a completion becomes the answer (status 200) with an
    empty list of sources, and the call fails (status 500) only when the
    completion itself fails. *)
Theorem C5_search_failure_degrades (d : Deps) (t : Table) (message : gostring) :
  message <> [] ->
  VectorService.SearchSimilarEntries (backend d) t VectorService.testUserID message 5
    = None ->
  (forall llmResponse,
      ollamaChat d (promptBuilder [] message) = Some llmResponse ->
      Chat d t (Some message)
      = Done ([LogSearchError; LogSearchFound 0; LogCited 0 0],
              StatusOK (mkChatResponse (fst (parseCitations llmResponse 0)) []
                                       (newMessageID d))))
  /\ (ollamaChat d (promptBuilder [] message) = None ->
      Chat d t (Some message)
      = Done ([LogSearchError; LogSearchFound 0; LogLLMError],
              StatusInternalServerError (lit "Failed to generate response"))).
Proof.
  intros Hm Hsearch. destruct message as [|c m]; [congruence|].
  split.
  - intros llmResponse Hllm. unfold Chat, similarEntriesFor, searchLog.
    rewrite Hsearch. cbv zeta. rewrite Hllm.
    pose proof (parseCitations_nothing_offered llmResponse) as Hnone.
    cbn [length]. destruct (parseCitations llmResponse 0) as [a cited].
    cbn [fst snd] in *. subst cited. reflexivity.
  - intros Hllm. unfold Chat, similarEntriesFor, searchLog.
    rewrite Hsearch. cbv zeta. rewrite Hllm. reflexivity.
Qed.

Lemma C5_search_failure_degrades_witness :
  Chat (Scenario.deps Scenario.backendSearchDown None) Scenario.tableAB
       (Some Scenario.question)
  = Done ([LogSearchError; LogSearchFound 0; LogLLMError],
          StatusInternalServerError (lit "Failed to generate response")).
Proof.
  refine (proj2 (@C5_search_failure_degrades
                   (Scenario.deps Scenario.backendSearchDown None)
                   Scenario.tableAB Scenario.question _ _) _).
  - discriminate.
  - reflexivity.
  - reflexivity.
Defined.

Lemma count_occ_filter_true (f : Z -> bool) (l : list Z) (n : Z) :
  f n = true ->
  count_occ Z.eq_dec (filter f l) n = count_occ Z.eq_dec l n.
Proof.
  intros Hn. induction l as [|x l IH]; simpl; [reflexivity|].
  destruct (f x) eqn:Ex; simpl; destruct (Z.eq_dec x n); try lia; congruence.
Qed.

Lemma count_occ_flat_map_ge (f : Z -> list EntryResponse) (g : Z -> Z)
  (l : list Z) (n : Z) (r : EntryResponse) :
  f (g n) = [r] ->
  count_occ Z.eq_dec l n
  <= count_occ EntryResponse_eq_dec (flat_map (fun k => f (g k)) l) r.
Proof.
  intros Hf. induction l as [|x l IH]; simpl; [lia|].
  rewrite count_occ_app. destruct (Z.eq_dec x n) as [->|_]; [|lia].
  rewrite Hf. simpl. destruct (EntryResponse_eq_dec r r); [lia|congruence].
Qed.

(** C9: the ordinals are not deduplicated.  A valid ordinal is kept as
    many times as it is cited, every kept ordinal is resolved on its own,
    and so a note that can be fetched appears among the sources at least
    once per citation of its ordinal. *)
Theorem C9_no_deduplication (d : Deps) (t : Table)
  (message llmResponse pre post : gostring) :
  message <> [] ->
  ollamaChat d (promptBuilder (similarEntriesFor d t message) message)
    = Some llmResponse ->
  llmResponse = pre ++ marker ++ post ->
  occurrences llmResponse marker = 1 ->
  let retrieved := similarEntriesFor d t message in
  let ordinals := Spec.keptOrdinals post (length retrieved) in
  exists logs sources,
    Chat d t (Some message)
    = Done (logs, StatusOK (mkChatResponse (TrimSpace pre) sources (newMessageID d)))
    /\ sources = flat_map (fun n => Spec.fetched d t retrieved (n - 1)) ordinals
    /\ forall n,
        (1 <= n <= Z.of_nat (length retrieved))%Z ->
        count_occ Z.eq_dec ordinals n
        = count_occ Z.eq_dec (Spec.integers (Spec.tokens post)) n
        /\ forall note full,
            nth_error retrieved (Z.to_nat (n - 1)) = Some note ->
            getEntry d t (S_ID note) = Some full ->
            count_occ Z.eq_dec ordinals n
            <= count_occ EntryResponse_eq_dec sources (entryToResponse full).
Proof.
  intros Hm Hllm Hresp Hocc retrieved ordinals.
  destruct (@Chat_one_marker d t message llmResponse pre post Hm Hllm Hresp Hocc)
    as [logs Hchat].
  fold retrieved in Hchat. fold ordinals in Hchat.
  exists logs, (Spec.resolve d t retrieved ordinals).
  split; [exact Hchat|]. split; [reflexivity|].
  intros n Hn. split.
  - unfold ordinals, Spec.keptOrdinals. apply count_occ_filter_true.
    apply andb_true_iff. split; apply Z.leb_le; lia.
  - intros note full Hnote Hfull. unfold Spec.resolve.
    apply count_occ_flat_map_ge with (f := Spec.fetched d t retrieved)
                                     (g := fun k => (k - 1)%Z).
    unfold Spec.fetched. now rewrite Hnote, Hfull.
Qed.

Lemma C9_no_deduplication_witness :
  exists logs sources,
    Chat (Scenario.deps Scenario.backendUp (Some Scenario.answerRepeated))
         Scenario.tableOne (Some Scenario.question)
    = Done (logs, StatusOK (mkChatResponse (lit "Seen twice.") sources 77%N))
    /\ sources = [entryToResponse Scenario.noteA; entryToResponse Scenario.noteA]
    /\ forall n,
        (1 <= n <= 1)%Z ->
        count_occ Z.eq_dec [1; 1]%Z n = count_occ Z.eq_dec [1; 1]%Z n
        /\ forall note full,
            nth_error
              (similarEntriesFor
                 (Scenario.deps Scenario.backendUp (Some Scenario.answerRepeated))
                 Scenario.tableOne Scenario.question)
              (Z.to_nat (n - 1)) = Some note ->
            getEntry (Scenario.deps Scenario.backendUp (Some Scenario.answerRepeated))
                     Scenario.tableOne (S_ID note) = Some full ->
            count_occ Z.eq_dec [1; 1]%Z n
            <= count_occ EntryResponse_eq_dec sources (entryToResponse full).
Proof.
  refine (@C9_no_deduplication
            (Scenario.deps Scenario.backendUp (Some Scenario.answerRepeated))
            Scenario.tableOne Scenario.question Scenario.answerRepeated
            (lit "Seen twice. ") (lit " 1, 1") _ _ _ _).
  - discriminate.
  - reflexivity.
  - reflexivity.
  - reflexivity.
Defined.

End ChatFacts.

(* ===================================================================== *)
(** * Ordering and limiting rows *)
(* ===================================================================== *)

Section SortFacts.
Variable A : Type.
Variable le : A -> A -> bool.
Hypothesis le_total : forall a b, le a b = true \/ le b a = true.
Hypothesis le_trans : forall a b c, le a b = true -> le b c = true -> le a c = true.

Let leP (a b : A) : Prop := le a b = true.

Lemma insert_perm (x : A) (l : list A) : Permutation (insert le x l) (x :: l).
Proof.
  induction l as [|y l IH]; simpl; [apply Permutation_refl|].
  destruct (le x y); [apply Permutation_refl|].
  eapply perm_trans; [apply perm_skip, IH|apply perm_swap].
Qed.

Lemma orderBy_perm (l : list A) : Permutation (orderBy le l) l.
Proof.
  induction l as [|x l IH]; simpl; [constructor|].
  eapply perm_trans; [apply insert_perm|now apply perm_skip].
Qed.

Lemma insert_sorted (x : A) (l : list A) :
  StronglySorted leP l -> StronglySorted leP (insert le x l).
Proof.
  induction 1 as [|y l Hs IH Hy]; simpl.
  - repeat constructor.
  - destruct (le x y) eqn:E.
    + constructor; [now constructor|]. constructor; [exact E|].
      eapply Forall_impl; [|exact Hy]. intros z Hz. now apply le_trans with y.
    + constructor; [exact IH|].
      apply Permutation_Forall with (x :: l);
        [apply Permutation_sym, insert_perm|].
      constructor; [|exact Hy].
      destruct (le_total x y) as [H|H]; [congruence|exact H].
Qed.

Lemma orderBy_sorted (l : list A) : StronglySorted leP (orderBy le l).
Proof.
  induction l as [|x l IH]; simpl; [constructor|now apply insert_sorted].
Qed.
End SortFacts.

Lemma limitRows_spec (A : Type) (n : Z) (l : list A) :
  (0 <= n)%Z ->
  limitRows n l = Some (firstn (Z.to_nat n) l)
  /\ l = firstn (Z.to_nat n) l ++ skipn (Z.to_nat n) l
  /\ length (firstn (Z.to_nat n) l) = Nat.min (Z.to_nat n) (length l).
Proof.
  intros Hn. unfold limitRows.
  destruct (Z.ltb_spec n 0) as [H|_]; [lia|].
  split; [reflexivity|]. split; [now rewrite firstn_skipn|apply length_firstn].
Qed.

Lemma limitRows_negative (A : Type) (n : Z) (l : list A) :
  (n < 0)%Z -> limitRows n l = None.
Proof.
  intros Hn. unfold limitRows. destruct (Z.ltb_spec n 0); [reflexivity|lia].
Qed.

(* ===================================================================== *)
(** * The stale batch and the staleness predicate *)
(* ===================================================================== *)

Section StaleFacts.

Lemma needsVectors_stale (e : Entry) : needsVectors e = true <-> Spec.stale e.
Proof.
  unfold needsVectors, Spec.stale, isNull.
  destruct (EmbeddingVector e) as [v|]; destruct (VectorsUpdatedAt e) as [s|];
    simpl.
  - split.
    + intros H. right. right. exists s. split; [reflexivity|].
      apply Z.ltb_lt in H. lia.
    + intros [H|[H|[s' [[= <-] H]]]]; try discriminate. apply Z.ltb_lt. lia.
  - split; auto.
  - split; auto.
  - split; auto.
Qed.

Lemma needingVectorsWhere_iff (user : UUID) (e : Entry) :
  needingVectorsWhere user e = true
  <-> UserID e = user /\ Archived e = false /\ Spec.stale e.
Proof.
  unfold needingVectorsWhere. rewrite !andb_true_iff, N.eqb_eq, negb_true_iff.
  rewrite needsVectors_stale. tauto.
Qed.

Lemma updatedDesc_total (a b : Entry) :
  updatedDesc a b = true \/ updatedDesc b a = true.
Proof. unfold updatedDesc. rewrite !Z.leb_le. lia. Qed.

Lemma updatedDesc_trans (a b c : Entry) :
  updatedDesc a b = true -> updatedDesc b c = true -> updatedDesc a c = true.
Proof. unfold updatedDesc. rewrite !Z.leb_le. lia. Qed.

Example staleBatch_all :
  staleBatch Scenario.tableSync Scenario.user 10
  = Some [Scenario.noteEdited; Scenario.noteNew].
Proof. reflexivity. Qed.

Example staleBatch_limited :
  staleBatch Scenario.tableSync Scenario.user 1 = Some [Scenario.noteEdited].
Proof. reflexivity. Qed.

Example staleBatch_negative_limit :
  GetEntriesNeedingVectors Scenario.tableSync Scenario.user (-1) = None.
Proof. reflexivity. Qed.

(** C1: for every owner and every limit [L] (a row count, so [0 <= L]),
    the query returns the first [L] rows ([rows]) of the list
    [rows ++ rest] that holds exactly the non-archived stale entries of the
    owner, most recently updated first; in particular at most [L] rows,
    and all of them when [L] is large enough. *)
Theorem C1_stale_batch (t : Table) (user : UUID) (limit : Z) :
  (0 <= limit)%Z ->
  exists rows rest,
    staleBatch t user limit = Some rows
    /\ GetEntriesNeedingVectors t user limit = Some (map needRow rows)
    /\ Permutation (rows ++ rest) (filter (needingVectorsWhere user) t)
    /\ (forall e, In e (rows ++ rest) <->
                  In e t /\ UserID e = user /\ Archived e = false /\ Spec.stale e)
    /\ StronglySorted (fun a b => (UpdatedAt a >= UpdatedAt b)%Z) (rows ++ rest)
    /\ length rows = Nat.min (Z.to_nat limit) (length (rows ++ rest))
    /\ (Z.of_nat (length rows) <= limit)%Z.
Proof.
  intros Hl.
  set (sorted := orderBy updatedDesc (filter (needingVectorsWhere user) t)).
  destruct (limitRows_spec sorted Hl) as (Hlim & Hsplit & Hlen).
  exists (firstn (Z.to_nat limit) sorted), (skipn (Z.to_nat limit) sorted).
  assert (Permutation sorted (filter (needingVectorsWhere user) t)) as Hperm
    by apply orderBy_perm.
  rewrite <- Hsplit.
  split; [exact Hlim|].
  split; [unfold GetEntriesNeedingVectors, staleBatch; fold sorted;
          now rewrite Hlim|].
  split; [exact Hperm|].
  split.
  { intros e. split.
    - intros Hin. apply (Permutation_in _ Hperm) in Hin.
      apply filter_In in Hin as [Hin Hw].
      apply needingVectorsWhere_iff in Hw. tauto.
    - intros (Hin & Hw). apply (Permutation_in _ (Permutation_sym Hperm)).
      apply filter_In. split; [exact Hin|]. now apply needingVectorsWhere_iff. }
  split.
  { pose proof (orderBy_sorted updatedDesc updatedDesc_total updatedDesc_trans
                  (filter (needingVectorsWhere user) t)) as Hs.
    fold sorted in Hs. clear -Hs.
    induction Hs as [|a l _ IH Ha]; constructor; [exact IH|].
    eapply Forall_impl; [|exact Ha].
    intros b Hb. unfold updatedDesc in Hb. apply Z.leb_le in Hb. lia. }
  split; [exact Hlen|]. rewrite Hlen. lia.
Qed.

Lemma C1_stale_batch_witness :
  exists rows rest,
    staleBatch Scenario.tableSync Scenario.user 1 = Some rows
    /\ GetEntriesNeedingVectors Scenario.tableSync Scenario.user 1
       = Some (map needRow rows)
    /\ Permutation (rows ++ rest)
         (filter (needingVectorsWhere Scenario.user) Scenario.tableSync)
    /\ (forall e, In e (rows ++ rest) <->
                  In e Scenario.tableSync /\ UserID e = Scenario.user
                  /\ Archived e = false /\ Spec.stale e)
    /\ StronglySorted (fun a b => (UpdatedAt a >= UpdatedAt b)%Z) (rows ++ rest)
    /\ length rows = Nat.min (Z.to_nat 1) (length (rows ++ rest))
    /\ (Z.of_nat (length rows) <= 1)%Z.
Proof.
  apply (@C1_stale_batch Scenario.tableSync Scenario.user 1%Z). lia.
Defined.

End StaleFacts.

(* ===================================================================== *)
(** * Staleness after an edit and after an upsert *)
(* ===================================================================== *)

Section WatermarkFacts.

(** No statement stamps a row with a time later than its own: when the
    clock does not run backwards, no [updated_at] lies in the future. *)
Lemma execStatement_bounded (t0 now : Timestamp) (st : Statement) (t : Table) :
  Forall (fun e => UpdatedAt e <= t0)%Z t ->
  (t0 <= now)%Z ->
  Forall (fun e => UpdatedAt e <= now)%Z (execStatement now st t).
Proof.
  intros Ht Hnow.
  assert (Forall (fun e => UpdatedAt e <= now)%Z t) as Ht'
    by (eapply Forall_impl; [|exact Ht]; simpl; intros; lia).
  destruct st; simpl.
  - unfold CreateEntry. apply Forall_app. split; [exact Ht'|].
    repeat constructor. simpl. lia.
  - unfold UpdateEntry. apply Forall_map. eapply Forall_impl; [|exact Ht'].
    intros e He. destruct ((ID e =? id)%N && negb (Archived e)); simpl in *; lia.
  - unfold SoftDeleteEntry. apply Forall_map. eapply Forall_impl; [|exact Ht'].
    intros e He. destruct (ID e =? id)%N; simpl in *; lia.
  - unfold UpdateEntryVector. apply Forall_map. eapply Forall_impl; [|exact Ht'].
    intros e He. destruct (ID e =? id)%N; simpl in *; lia.
Qed.

(** C8: right after [UpdateEntry] has set [updated_at] of a note to a time
    later than its watermark the note is stale; right after
    [UpdateEntryVector] has written a vector for the note (one [UPDATE]
    sets the vector and the watermark together, the watermark to the
    current time) the note is not stale, the current time being no earlier
    than the note's last edit. *)
Theorem C8_staleness_transitions (t : Table) (id : UUID) (now : Timestamp) :
  (forall title bodyText e,
      In e (UpdateEntry t id title bodyText now) ->
      ID e = id -> Archived e = false ->
      (forall synced, VectorsUpdatedAt e = Some synced -> (synced < now)%Z) ->
      UpdatedAt e = now /\ needsVectors e = true /\ Spec.stale e)
  /\ (forall v e,
      In e (UpdateEntryVector t id (Some v) now) ->
      ID e = id -> (UpdatedAt e <= now)%Z ->
      EmbeddingVector e = Some v /\ VectorsUpdatedAt e = Some now
      /\ needsVectors e = false /\ ~ Spec.stale e).
Proof.
  split.
  - intros title bodyText e Hin Hid Harch Hsync.
    unfold UpdateEntry in Hin. apply in_map_iff in Hin as [e0 [He _]].
    assert (UpdatedAt e = now) as Hu.
    { destruct ((ID e0 =? id)%N && negb (Archived e0)) eqn:E.
      - subst e. reflexivity.
      - subst e0. rewrite Hid, N.eqb_refl, Harch in E. discriminate. }
    split; [exact Hu|].
    assert (needsVectors e = true) as Hn.
    { unfold needsVectors.
      destruct (VectorsUpdatedAt e) as [s|] eqn:Es.
      - rewrite Hu. rewrite (proj2 (Z.ltb_lt s now) (Hsync s eq_refl)).
        now rewrite !orb_true_r.
      - simpl. now rewrite orb_true_r. }
    split; [exact Hn|now apply needsVectors_stale].
  - intros v e Hin Hid Hnow.
    unfold UpdateEntryVector in Hin. apply in_map_iff in Hin as [e0 [He _]].
    destruct (ID e0 =? id)%N eqn:E.
    + subst e. simpl in *.
      assert (needsVectors (setVector (Some v) now e0) = false) as Hn.
      { unfold needsVectors. simpl. apply Z.ltb_ge. exact Hnow. }
      repeat split; try exact Hn.
      intros Hs. apply needsVectors_stale in Hs. congruence.
    + subst e0. rewrite Hid, N.eqb_refl in E. discriminate.
Qed.

Lemma C8_staleness_transitions_witness :
  (UpdatedAt Scenario.noteAEdited = 6000%Z
   /\ needsVectors Scenario.noteAEdited = true
   /\ Spec.stale Scenario.noteAEdited)
  /\ (EmbeddingVector Scenario.noteNewSynced = Some Scenario.queryVector
      /\ VectorsUpdatedAt Scenario.noteNewSynced = Some 6000%Z
      /\ needsVectors Scenario.noteNewSynced = false
      /\ ~ Spec.stale Scenario.noteNewSynced).
Proof.
  split.
  - refine (proj1 (C8_staleness_transitions Scenario.tableSync 1%N 6000%Z)
                  (lit "Roadmap v2") (lit "Edited") Scenario.noteAEdited _ _ _ _).
    + left. reflexivity.
    + reflexivity.
    + reflexivity.
    + intros synced [= <-]. lia.
  - refine (proj2 (C8_staleness_transitions Scenario.tableSync 3%N 6000%Z)
                  Scenario.queryVector Scenario.noteNewSynced _ _ _).
    + right. left. reflexivity.
    + reflexivity.
    + simpl. lia.
Defined.

End WatermarkFacts.

(* ===================================================================== *)
(** * The nearest-neighbour query *)
(* ===================================================================== *)

Section NearestFacts.

Lemma Rleb_le (x y : R) : Rleb x y = true <-> (x <= y)%R.
Proof. unfold Rleb. destruct (Rle_dec x y); split; auto; discriminate. Qed.

Lemma nearer_total (a b : Entry * R) : nearer a b = true \/ nearer b a = true.
Proof. unfold nearer. rewrite !Rleb_le. lra. Qed.

Lemma nearer_trans (a b c : Entry * R) :
  nearer a b = true -> nearer b c = true -> nearer a c = true.
Proof. unfold nearer. rewrite !Rleb_le. lra. Qed.

Lemma withDistance_spec (q : vector) (l : list Entry) (ds : list (Entry * R)) :
  withDistance q l = Some ds ->
  map fst ds = l
  /\ Forall (fun p => exists v, EmbeddingVector (fst p) = Some v
                                /\ l2_distance v q = Some (snd p)) ds.
Proof.
  revert ds; induction l as [|e l IH]; intros ds; simpl.
  - intros [= <-]. split; constructor.
  - destruct (EmbeddingVector e) as [v|] eqn:Ev; [|discriminate].
    destruct (l2_distance v q) as [dist|] eqn:Ed; [|discriminate].
    destruct (withDistance q l) as [r|]; [|discriminate].
    intros [= <-]. destruct (IH r eq_refl) as [Hm Hf]. split.
    + simpl. now rewrite Hm.
    + constructor; [|exact Hf]. exists v. now split.
Qed.

(** What the query guarantees with the operator it uses: at most [limit]
    rows, each a non-archived entry of the user that has a vector, with its
    Euclidean distance to the query vector, nearest first. *)
Lemma nearest_spec (t : Table) (user : UUID) (q : vector) (limit : Z)
  (rows : list (Entry * R)) :
  nearest t user q limit = Some rows ->
  (Z.of_nat (length rows) <= limit)%Z
  /\ Forall (fun p => In (fst p) t /\ UserID (fst p) = user
                      /\ Archived (fst p) = false
                      /\ exists v, EmbeddingVector (fst p) = Some v
                                   /\ l2_distance v q = Some (snd p)) rows
  /\ StronglySorted (fun a b => (snd a <= snd b)%R) rows.
Proof.
  unfold nearest.
  destruct (withDistance q (filter (searchWhere user) t)) as [ds|] eqn:Ed;
    [|discriminate].
  destruct (Z.ltb_spec limit 0) as [Hneg|Hpos].
  { rewrite limitRows_negative by exact Hneg. discriminate. }
  destruct (limitRows_spec (orderBy nearer ds) Hpos) as (Hlim & Hsplit & Hlen).
  rewrite Hlim. intros [= <-].
  destruct (withDistance_spec _ _ Ed) as [Hfst Hdist].
  pose proof (orderBy_perm nearer ds) as Hperm.
  assert (Forall (fun p => In (fst p) t /\ UserID (fst p) = user
                           /\ Archived (fst p) = false
                           /\ exists v, EmbeddingVector (fst p) = Some v
                                        /\ l2_distance v q = Some (snd p))
                 (orderBy nearer ds)) as Hall.
  { apply Permutation_Forall with ds; [now apply Permutation_sym|].
    apply Forall_forall. intros p Hp.
    assert (In (fst p) (filter (searchWhere user) t)) as Hin
      by (rewrite <- Hfst; now apply in_map).
    apply filter_In in Hin as [Hin Hw]. unfold searchWhere in Hw.
    apply andb_true_iff in Hw as [Hw _]. apply andb_true_iff in Hw as [Hu Ha].
    apply N.eqb_eq in Hu. apply negb_true_iff in Ha.
    repeat split; try assumption.
    now apply (proj1 (Forall_forall _ _) Hdist). }
  pose proof (orderBy_sorted nearer nearer_total nearer_trans ds) as Hs.
  rewrite Hsplit in Hall, Hs.
  split; [rewrite Hlen; lia|].
  split.
  - now apply Forall_app in Hall as [Hall _].
  - assert (forall l : list (Entry * R),
               StronglySorted (fun a b => nearer a b = true) l ->
               StronglySorted (fun a b => (snd a <= snd b)%R) l) as Hconv.
    { induction 1 as [|a l _ IH Ha]; constructor; [exact IH|].
      eapply Forall_impl; [|exact Ha]. intros b Hb. now apply Rleb_le. }
    apply Hconv.
    clear -Hs. revert Hs.
    generalize (firstn (Z.to_nat limit) (orderBy nearer ds)) as l1.
    generalize (skipn (Z.to_nat limit) (orderBy nearer ds)) as l2.
    intros l2 l1. induction l1 as [|a l1 IH]; simpl; intros Hs; [constructor|].
    inversion Hs as [|? ? Hs' Ha]; subst. constructor; [now apply IH|].
    now apply Forall_app in Ha as [Ha _].
Qed.

(** ** Distances between vectors of the scenario *)

Lemma dot_cons (x y : R) (a b : vector) :
  dot (x :: a) (y :: b) = (x * y + dot a b)%R.
Proof. reflexivity. Qed.

Lemma sub_cons (x y : R) (a b : vector) :
  sub (x :: a) (y :: b) = (x - y)%R :: sub a b.
Proof. reflexivity. Qed.

Lemma dot_zeros (n : nat) : dot (repeat 0%R n) (repeat 0%R n) = 0%R.
Proof.
  induction n as [|n IH]; [reflexivity|].
  cbn [repeat]. rewrite dot_cons, IH. lra.
Qed.

Lemma dot_sub_zeros (n : nat) :
  dot (sub (repeat 0%R n) (repeat 0%R n)) (sub (repeat 0%R n) (repeat 0%R n)) = 0%R.
Proof.
  induction n as [|n IH]; [reflexivity|].
  cbn [repeat]. rewrite sub_cons, dot_cons, IH. lra.
Qed.

Lemma vec768_length (a b : R) :
  length (Scenario.vec768 [a; b]) = Scenario.dimension.
Proof. unfold Scenario.vec768. rewrite length_app, repeat_length. reflexivity. Qed.

Lemma l2_distance_vec768 (a1 a2 b1 b2 : R) :
  l2_distance (Scenario.vec768 [a1; a2]) (Scenario.vec768 [b1; b2])
  = Some (sqrt ((a1 - b1) * (a1 - b1) + (a2 - b2) * (a2 - b2))).
Proof.
  unfold l2_distance. rewrite !vec768_length, Nat.eqb_refl.
  unfold Scenario.vec768. cbn [length app].
  rewrite !sub_cons, !dot_cons, dot_sub_zeros. do 2 f_equal. lra.
Qed.

Lemma cosine_distance_vec768 (a1 a2 b1 b2 : R) :
  cosine_distance (Scenario.vec768 [a1; a2]) (Scenario.vec768 [b1; b2])
  = Some (1 - (a1 * b1 + a2 * b2)
              / sqrt ((a1 * a1 + a2 * a2) * (b1 * b1 + b2 * b2)))%R.
Proof.
  unfold cosine_distance. rewrite !vec768_length, Nat.eqb_refl.
  unfold Scenario.vec768. cbn [length app].
  rewrite !dot_cons, dot_zeros. do 2 f_equal.
  do 2 f_equal; lra.
Qed.

Lemma sqrt_4 : sqrt 4 = 2%R.
Proof. replace 4%R with (2 * 2)%R by lra. apply sqrt_square. lra. Qed.

Lemma sqrt_2_gt_1 : (1 < sqrt 2)%R.
Proof. rewrite <- sqrt_1 at 1. apply sqrt_lt_1; lra. Qed.

Lemma search_scenario :
  nearest Scenario.tableAB Scenario.user Scenario.queryVector 5
  = Some [(Scenario.noteB, 1%R); (Scenario.noteA, 2%R)].
Proof.
  unfold nearest.
  change (filter (searchWhere Scenario.user) Scenario.tableAB)
    with [Scenario.noteA; Scenario.noteB].
  assert (withDistance Scenario.queryVector [Scenario.noteA; Scenario.noteB]
          = Some [(Scenario.noteA, 2%R); (Scenario.noteB, 1%R)]) as ->.
  { cbn [withDistance].
    change (EmbeddingVector Scenario.noteA) with (Some (Scenario.vec768 [3; 0]%R)).
    change (EmbeddingVector Scenario.noteB) with (Some (Scenario.vec768 [1; 1]%R)).
    cbv iota. unfold Scenario.queryVector. rewrite !l2_distance_vec768.
    replace ((3 - 1) * (3 - 1) + (0 - 0) * (0 - 0))%R with 4%R by lra.
    replace ((1 - 1) * (1 - 1) + (1 - 0) * (1 - 0))%R with 1%R by lra.
    rewrite sqrt_4, sqrt_1. reflexivity. }
  cbn [orderBy insert]. unfold nearer at 1. cbn [snd].
  assert (Rleb 2 1 = false) as ->
    by (unfold Rleb; destruct (Rle_dec 2 1); [lra|reflexivity]).
  reflexivity.
Qed.

(** Also between unit vectors, where both distances order the rows alike,
    the score differs: [sqrt 2] for [<->], 1 for the cosine distance. *)
Example unit_vectors_scores_differ :
  l2_distance (Scenario.vec768 [0; 1]%R) Scenario.queryVector = Some (sqrt 2)
  /\ cosine_distance (Scenario.vec768 [0; 1]%R) Scenario.queryVector = Some 1%R
  /\ sqrt 2 <> 1%R.
Proof.
  unfold Scenario.queryVector.
  rewrite l2_distance_vec768, cosine_distance_vec768.
  pose proof sqrt_2_gt_1 as H2. repeat split.
  - do 2 f_equal. lra.
  - f_equal. replace ((0 * 0 + 1 * 1) * (1 * 1 + 0 * 0))%R with 1%R by lra.
    rewrite sqrt_1. lra.
  - lra.
Qed.

(** C2, on two notes and a query vector of the column's 768 dimensions:
    the query orders by the Euclidean distance of [<->] and returns it as
    the score.  [noteB] (distance 1) comes before [noteA] (distance 2),
    although the cosine distance of [noteA] is 0 and that of [noteB] is
    [1 - 1/sqrt 2 > 0]; neither score is the cosine distance. *)
Theorem C2_distance_is_euclidean :
  Db.SearchSimilarEntries Scenario.tableAB Scenario.user Scenario.queryVector 5
  = Some [searchRow (Scenario.noteB, 1%R); searchRow (Scenario.noteA, 2%R)]
  /\ VectorService.SearchSimilarEntries Scenario.backendUp Scenario.tableAB
       Scenario.user Scenario.question 5
     = Some [searchRow (Scenario.noteB, 1%R); searchRow (Scenario.noteA, 2%R)]
  /\ cosine_distance (Scenario.vec768 [3; 0]%R) Scenario.queryVector = Some 0%R
  /\ cosine_distance (Scenario.vec768 [1; 1]%R) Scenario.queryVector
     = Some (1 - 1 / sqrt 2)%R
  /\ (0 < 1 - 1 / sqrt 2 < 1)%R.
Proof.
  assert (Db.SearchSimilarEntries Scenario.tableAB Scenario.user
            Scenario.queryVector 5
          = Some [searchRow (Scenario.noteB, 1%R); searchRow (Scenario.noteA, 2%R)])
    as Hsearch
    by (unfold Db.SearchSimilarEntries; now rewrite search_scenario).
  pose proof sqrt_2_gt_1 as H2.
  split; [exact Hsearch|]. split; [exact Hsearch|].
  unfold Scenario.queryVector. rewrite !cosine_distance_vec768.
  split; [|split].
  - f_equal. replace ((3 * 3 + 0 * 0) * (1 * 1 + 0 * 0))%R with (3 * 3)%R by lra.
    rewrite sqrt_square by lra. field.
  - replace ((1 * 1 + 1 * 1) * (1 * 1 + 0 * 0))%R with 2%R by lra.
    replace (1 * 1 + 1 * 0)%R with 1%R by lra. reflexivity.
  - assert (0 < 1 / sqrt 2 < 1)%R; [|lra]. split.
    + apply Rdiv_lt_0_compat; lra.
    + apply Rmult_lt_reg_r with (sqrt 2); [lra|].
      unfold Rdiv. rewrite Rmult_assoc, Rinv_l by lra. lra.
Qed.

End NearestFacts.

(* ===================================================================== *)
(** * The sync cycle *)
(* ===================================================================== *)

Section CycleFacts.

Import VectorService.

Lemma processEntries_trace (b : Backend) (entries : list GetEntriesNeedingVectorsRow) :
  forall (i : nat) (t : Table),
    let evs := snd (processEntries b i entries t) in
    Spec.embedCalls evs = map Spec.textOf entries
    /\ Spec.embedFailures evs = map N_ID (filter (Spec.embedFails b) entries)
    /\ Spec.updateCalls evs
       = map N_ID (filter (fun e => negb (Spec.embedFails b e)) entries)
    /\ Spec.updateFailures evs = map N_ID (filter (Spec.upsertFails b) entries).
Proof.
  induction entries as [|entry rest IH]; intros i t; [repeat split|].
  cbn [processEntries].
  unfold Spec.upsertFails, Spec.embedFails. cbn [filter map].
  fold (Spec.textOf entry).
  destruct (GenerateEmbedding b (Spec.textOf entry)) as [embedding|] eqn:Eg.
  - destruct (updateFails b (N_ID entry)) eqn:Eu.
    + specialize (IH (S i) t).
      destruct (processEntries b (S i) rest t) as [t' evs].
      cbn in IH |- *. destruct IH as (H1 & H2 & H3 & H4).
      unfold Spec.upsertFails, Spec.embedFails in *.
      now rewrite H1, H2, H3, H4.
    + specialize (IH (S i) (UpdateEntryVector t (N_ID entry) (Some embedding)
                                               (clock b i))).
      destruct (processEntries b (S i) rest _) as [t' evs].
      cbn in IH |- *. destruct IH as (H1 & H2 & H3 & H4).
      unfold Spec.upsertFails, Spec.embedFails in *.
      now rewrite H1, H2, H3, H4.
  - specialize (IH (S i) t).
    destruct (processEntries b (S i) rest t) as [t' evs].
    cbn in IH |- *. destruct IH as (H1 & H2 & H3 & H4).
    unfold Spec.upsertFails, Spec.embedFails in *.
    now rewrite H1, H2, H3, H4.
Qed.

Example updateVectors_flaky :
  updateVectors Scenario.backendFlaky 10 Scenario.tableSync
  = ([Scenario.noteA; Scenario.noteNewCycled; Scenario.noteB; Scenario.noteEdited],
     [LogUpdating 2;
      CallGenerateEmbedding (lit "Retro" ++ Handler.nl ++ Handler.nl ++ lit "Edited retro");
      LogEmbeddingError 4%N;
      CallGenerateEmbedding (lit "Draft" ++ Handler.nl ++ Handler.nl ++ lit "Unsynced draft");
      CallUpdateEntryVector 3%N;
      LogSuccess 2]).
Proof. reflexivity. Qed.

(** C6: in a cycle that fetched a batch, whichever embeddings and updates
    fail, the embedding is requested for every note of the batch in order,
    the update for every note whose embedding succeeded, each failure is
    logged for its note, and the cycle runs to its last statement (the
    closing log line). *)
Theorem C6_failures_do_not_abort (b : Backend) (batchSize : Z) (t : Table)
  (entries : list GetEntriesNeedingVectorsRow) :
  fetchFails b = false ->
  GetEntriesNeedingVectors t testUserID batchSize = Some entries ->
  entries <> [] ->
  exists t' evs,
    updateVectors b batchSize t
    = (t', LogUpdating (length entries) :: evs ++ [LogSuccess (length entries)])
    /\ Spec.embedCalls evs = map Spec.textOf entries
    /\ Spec.embedFailures evs = map N_ID (filter (Spec.embedFails b) entries)
    /\ Spec.updateCalls evs
       = map N_ID (filter (fun e => negb (Spec.embedFails b e)) entries)
    /\ Spec.updateFailures evs = map N_ID (filter (Spec.upsertFails b) entries).
Proof.
  intros Hf Hq Hne. unfold updateVectors. rewrite Hf, Hq.
  destruct entries as [|entry rest]; [congruence|].
  pose proof (processEntries_trace b (entry :: rest) 0 t) as H.
  destruct (processEntries b 0 (entry :: rest) t) as [t' evs].
  exists t', evs. split; [reflexivity|exact H].
Qed.

Lemma C6_failures_do_not_abort_witness :
  exists t' evs,
    updateVectors Scenario.backendFlaky 10 Scenario.tableSync
    = (t', LogUpdating 2 :: evs ++ [LogSuccess 2])
    /\ Spec.embedCalls evs
       = [lit "Retro" ++ Handler.nl ++ Handler.nl ++ lit "Edited retro";
          lit "Draft" ++ Handler.nl ++ Handler.nl ++ lit "Unsynced draft"]
    /\ Spec.embedFailures evs = [4%N]
    /\ Spec.updateCalls evs = [3%N]
    /\ Spec.updateFailures evs = [].
Proof.
  refine (@C6_failures_do_not_abort Scenario.backendFlaky 10%Z Scenario.tableSync
            [needRow Scenario.noteEdited; needRow Scenario.noteNew] _ _ _).
  - reflexivity.
  - reflexivity.
  - discriminate.
Defined.

End CycleFacts.

(* ===================================================================== *)
(** * The lifecycle of the service *)
(* ===================================================================== *)

Section LifecycleFacts.

Import VectorService.

Lemma stopCh_stays_closed (c : Call) (s s' : Service) :
  call c s = Done s' -> stopChClosed s = true -> stopChClosed s' = true.
Proof.
  destruct c; simpl; unfold Start, Stop.
  - destruct (running s); intros [= <-]; auto.
  - destruct (running s); simpl; [|intros [= <-]; auto].
    destruct (stopChClosed s); [discriminate|intros [= <-]; auto].
Qed.

(** C10: the channel made by [New] is closed by the first effective
    [Stop] and no call opens it again, so the service cannot be restarted:
    [Start(); Stop(); Start(); Stop()] panics in the second [Stop]. *)
Theorem C10_not_restartable :
  stopChClosed New = false
  /\ run [CallStart; CallStop] New = Done (mkService false true 1)
  /\ run [CallStart; CallStop; CallStart] New = Done (mkService true true 2)
  /\ run [CallStart; CallStop; CallStart; CallStop] New = Panic
  /\ (forall c s s',
         call c s = Done s' -> stopChClosed s = true -> stopChClosed s' = true).
Proof.
  repeat split; try reflexivity. exact stopCh_stays_closed.
Qed.

End LifecycleFacts.

(* ===================================================================== *)
(** * Cycles under the mutex *)
(* ===================================================================== *)

Section MutexFacts.

Import SyncMutex.








End MutexFacts.

(* ===================================================================== *)
(** * Further properties: the lifecycle *)
(* ===================================================================== *)

Section LifecycleMore.

Import VectorService.



(** The states a service goes through. *)
Lemma run_states (cs : list Call) (s : Service) :
  run cs New = Done s ->
  s = mkService false false 0 \/ s = mkService true false 1
  \/ s = mkService false true 1 \/ s = mkService true true 2.
Proof.
  assert (forall s0 s1,
             (s0 = mkService false false 0 \/ s0 = mkService true false 1
              \/ s0 = mkService false true 1 \/ s0 = mkService true true 2) ->
             run cs s0 = Done s1 ->
             s1 = mkService false false 0 \/ s1 = mkService true false 1
             \/ s1 = mkService false true 1 \/ s1 = mkService true true 2) as H.
  { induction cs as [|c cs IH]; intros s0 s1 H0; simpl.
    - now intros [= <-].
    - destruct c; destruct H0 as [-> | [-> | [-> | ->]]]; simpl;
        try discriminate; apply IH; auto. }
  apply H. now left.
Qed.

(** X2: before the first effective [Stop], however often [Start] has been
    called, exactly one ticker goroutine has been launched if the service
    runs, and none if it does not: repeated [Start] calls add no timer. *)
Theorem X2_no_duplicate_ticker (cs : list Call) (s : Service) :
  run cs New = Done s ->
  stopChClosed s = false ->
  tickers s = (if running s then 1 else 0).
Proof.
  intros H. apply run_states in H.
  destruct H as [-> | [-> | [-> | ->]]]; simpl; intros; try discriminate; reflexivity.
Qed.

Lemma X2_no_duplicate_ticker_witness :
  tickers (mkService true false 1) = (if running (mkService true false 1) then 1 else 0).
Proof.
  exact (@X2_no_duplicate_ticker [CallStart; CallStart; CallStart]
           (mkService true false 1) eq_refl eq_refl).
Defined.

End LifecycleMore.

(* ===================================================================== *)
(** * Further properties: the sync cycle *)
(* ===================================================================== *)

Section CycleMore.

Import VectorService.

(** The loop of a cycle treats every row of the table on its own. *)
Lemma processEntries_rows (b : Backend) (entries : list GetEntriesNeedingVectorsRow) :
  forall (i : nat) (t : Table),
    fst (processEntries b i entries t) = map (Props.cycleOnRow b i entries) t.
Proof.
  induction entries as [|entry rest IH]; intros i t.
  - simpl. now rewrite map_id.
  - cbn [processEntries Props.cycleOnRow]. fold (Spec.textOf entry).
    destruct (GenerateEmbedding b (Spec.textOf entry)) as [embedding|].
    + destruct (updateFails b (N_ID entry)).
      * specialize (IH (S i) t).
        destruct (processEntries b (S i) rest t) as [t' evs]. exact IH.
      * specialize (IH (S i) (UpdateEntryVector t (N_ID entry) (Some embedding)
                                                 (clock b i))).
        destruct (processEntries b (S i) rest _) as [t' evs].
        cbn [fst] in *. rewrite IH. unfold UpdateEntryVector.
        now rewrite map_map.
    + specialize (IH (S i) t).
      destruct (processEntries b (S i) rest t) as [t' evs]. exact IH.
Qed.

Lemma setVector_content (v : option vector) (now : Timestamp) (e : Entry) :
  Props.content (setVector v now e) = Props.content e.
Proof. reflexivity. Qed.

Lemma cycleOnRow_content (b : Backend) (entries : list GetEntriesNeedingVectorsRow) :
  forall (i : nat) (e : Entry),
    Props.content (Props.cycleOnRow b i entries e) = Props.content e.
Proof.
  induction entries as [|entry rest IH]; intros i e; [reflexivity|].
  cbn [Props.cycleOnRow]. rewrite IH.
  destruct (GenerateEmbedding b (Spec.textOf entry)); [|reflexivity].
  destruct (updateFails b (N_ID entry)); [reflexivity|].
  destruct (ID e =? N_ID entry)%N; reflexivity.
Qed.

Lemma cycleOnRow_untouched (b : Backend) (entries : list GetEntriesNeedingVectorsRow) :
  forall (i : nat) (e : Entry),
    ~ In (ID e) (map N_ID (filter (Props.succeeds b) entries)) ->
    Props.cycleOnRow b i entries e = e.
Proof.
  induction entries as [|entry rest IH]; intros i e Hnot; [reflexivity|].
  cbn [Props.cycleOnRow]. cbn [filter] in Hnot.
  unfold Props.succeeds, Spec.embedFails, isNull in Hnot.
  destruct (GenerateEmbedding b (Spec.textOf entry)) as [embedding|].
  - destruct (updateFails b (N_ID entry)).
    + apply IH. exact Hnot.
    + cbn [negb andb map] in Hnot.
      destruct (N.eqb_spec (ID e) (N_ID entry)) as [Heq|Hne].
      * exfalso. apply Hnot. left. now symmetry.
      * apply IH. intros Hin. apply Hnot. now right.
  - apply IH. exact Hnot.
Qed.

Lemma cycleOnRow_fresh (b : Backend) (entries : list GetEntriesNeedingVectorsRow) :
  forall (i : nat) (e : Entry),
    (forall j, UpdatedAt e <= clock b j)%Z ->
    needsVectors e = false
    \/ In (ID e) (map N_ID (filter (Props.succeeds b) entries)) ->
    needsVectors (Props.cycleOnRow b i entries e) = false.
Proof.
  induction entries as [|entry rest IH]; intros i e Hclock Hcase.
  - destruct Hcase as [H|[]]. exact H.
  - cbn [Props.cycleOnRow]. cbn [filter] in Hcase.
    unfold Props.succeeds, Spec.embedFails, isNull in Hcase.
    destruct (GenerateEmbedding b (Spec.textOf entry)) as [embedding|].
    + destruct (updateFails b (N_ID entry)).
      * apply IH; assumption.
      * cbn [negb andb map] in Hcase.
        destruct (N.eqb_spec (ID e) (N_ID entry)) as [Heq|Hne].
        -- apply IH; [exact Hclock|]. left.
           unfold needsVectors. simpl. apply Z.ltb_ge. apply Hclock.
        -- apply IH; [exact Hclock|].
           destruct Hcase as [H|[H|H]]; auto. congruence.
    + apply IH; assumption.
Qed.

Lemma needingVectorsWhere_content (user : UUID) (e e' : Entry) :
  Props.content e' = Props.content e ->
  needingVectorsWhere user e' = (UserID e =? user)%N && negb (Archived e)
                                && needsVectors e'.
Proof.
  unfold Props.content, needingVectorsWhere. intros [= _ -> _ _ _ _ _ -> _ _].
  reflexivity.
Qed.

Lemma In_firstn (A : Type) (n : nat) (l : list A) (x : A) :
  In x (firstn n l) -> In x l.
Proof.
  intros H. rewrite <- (firstn_skipn n l). apply in_or_app. now left.
Qed.

(** The rows a stale batch is made of. *)
Lemma staleBatch_rows (t : Table) (user : UUID) (limit : Z) (rows : list Entry) :
  staleBatch t user limit = Some rows ->
  (0 <= limit)%Z
  /\ rows = firstn (Z.to_nat limit)
                   (orderBy updatedDesc (filter (needingVectorsWhere user) t))
  /\ Forall (fun e => In e t /\ needingVectorsWhere user e = true) rows.
Proof.
  unfold staleBatch. intros H.
  destruct (Z.ltb_spec limit 0) as [Hneg|Hpos];
    [rewrite limitRows_negative in H by exact Hneg; discriminate|].
  destruct (limitRows_spec
              (orderBy updatedDesc (filter (needingVectorsWhere user) t)) Hpos)
    as (Hlim & _ & _).
  rewrite Hlim in H. injection H as <-.
  split; [exact Hpos|]. split; [reflexivity|].
  apply Forall_forall. intros e He. apply In_firstn in He.
  apply (Permutation_in _ (orderBy_perm updatedDesc _)) in He.
  now apply filter_In in He.
Qed.

Lemma fetched_batch (b : Backend) (batchSize : Z) (t : Table)
  (entries : list GetEntriesNeedingVectorsRow) :
  GetEntriesNeedingVectors t testUserID batchSize = Some entries ->
  exists rows, staleBatch t testUserID batchSize = Some rows
               /\ entries = map needRow rows.
Proof.
  unfold GetEntriesNeedingVectors.
  destruct (staleBatch t testUserID batchSize) as [rows|]; [|discriminate].
  intros [= <-]. now exists rows.
Qed.

Lemma updateVectors_table (b : Backend) (batchSize : Z) (t : Table) :
  exists entries,
    fst (updateVectors b batchSize t) = map (Props.cycleOnRow b 0 entries) t
    /\ (entries = []
        \/ (fetchFails b = false
            /\ GetEntriesNeedingVectors t testUserID batchSize = Some entries)).
Proof.
  unfold updateVectors.
  destruct (fetchFails b).
  - exists []. simpl. rewrite map_id. auto.
  - destruct (GetEntriesNeedingVectors t testUserID batchSize) as [entries|] eqn:E.
    + exists entries. destruct entries as [|entry rest].
      * simpl. rewrite map_id. auto.
      * pose proof (processEntries_rows b (entry :: rest) 0 t) as H.
        destruct (processEntries b 0 (entry :: rest) t) as [t' evs].
        simpl in H. split; [exact H|]. right. auto.
    + exists []. simpl. rewrite map_id. auto.
Qed.

Lemma batch_ids (rows : list Entry) :
  map N_ID (map needRow rows) = map ID rows.
Proof. rewrite map_map. reflexivity. Qed.

Lemma unique_id (t : Table) (a b : Entry) :
  NoDup (map ID t) -> In a t -> In b t -> ID a = ID b -> a = b.
Proof.
  intros Hnd Ha Hb Hid. induction t as [|x t IH]; [contradiction|].
  simpl in Hnd. inversion Hnd as [|? ? Hx Hnd']; subst.
  destruct Ha as [-> | Ha], Hb as [-> | Hb]; auto.
  - exfalso. apply Hx. rewrite Hid. now apply in_map.
  - exfalso. apply Hx. rewrite <- Hid. now apply in_map.
Qed.

(** X3: a cycle writes nothing but the vector and the watermark: every
    other column of every row, and the number and order of the rows, are
    as before; and a row that is archived, belongs to another user or is
    not stale is left exactly as it was, ids being unique. *)
Theorem X3_cycle_writes_only_stale_vectors (b : Backend) (batchSize : Z) (t : Table) :
  NoDup (map ID t) ->
  map Props.content (fst (updateVectors b batchSize t)) = map Props.content t
  /\ forall k e,
      nth_error t k = Some e ->
      needingVectorsWhere testUserID e = false ->
      nth_error (fst (updateVectors b batchSize t)) k = Some e.
Proof.
  intros Hnd. destruct (updateVectors_table b batchSize t) as (entries & -> & He).
  split.
  - rewrite map_map. apply map_ext. intros e. apply cycleOnRow_content.
  - intros k e Hk Hw. rewrite nth_error_map, Hk. simpl. f_equal.
    apply cycleOnRow_untouched. intros Hin.
    destruct He as [->|[_ Hq]]; [exact Hin|].
    destruct (fetched_batch b _ _ Hq) as (rows & Hrows & ->).
    apply staleBatch_rows in Hrows as (_ & _ & Hall).
    apply in_map_iff in Hin as (entry & Hid & Hentry).
    apply filter_In in Hentry as [Hentry _].
    apply in_map_iff in Hentry as (e0 & <- & He0).
    apply (proj1 (Forall_forall _ _) Hall) in He0 as [Hin0 Hw0].
    simpl in Hid.
    assert (e0 = e) as ->; [|congruence].
    apply nth_error_In in Hk. now apply unique_id with t.
Qed.

Lemma X3_cycle_writes_only_stale_vectors_witness :
  map Props.content (fst (updateVectors Scenario.backendFlaky 10 Scenario.tableSync))
  = map Props.content Scenario.tableSync
  /\ forall k e,
      nth_error Scenario.tableSync k = Some e ->
      needingVectorsWhere testUserID e = false ->
      nth_error (fst (updateVectors Scenario.backendFlaky 10 Scenario.tableSync)) k
      = Some e.
Proof.
  apply (@X3_cycle_writes_only_stale_vectors Scenario.backendFlaky 10%Z
           Scenario.tableSync).
  repeat constructor; simpl; intuition discriminate.
Defined.

(** X4: a note of the batch whose embedding or update fails is left
    exactly as it was, so it is still stale and a candidate of the next
    cycle (ids being unique). *)
Theorem X4_failed_note_is_retried (b : Backend) (batchSize : Z) (t : Table)
  (entries : list GetEntriesNeedingVectorsRow) (entry : GetEntriesNeedingVectorsRow)
  (k : nat) (e : Entry) :
  NoDup (map ID t) ->
  fetchFails b = false ->
  GetEntriesNeedingVectors t testUserID batchSize = Some entries ->
  In entry entries ->
  Props.succeeds b entry = false ->
  nth_error t k = Some e ->
  ID e = N_ID entry ->
  nth_error (fst (updateVectors b batchSize t)) k = Some e
  /\ needingVectorsWhere testUserID e = true.
Proof.
  intros Hnd Hf Hq Hentry Hfail Hk Hid.
  destruct (fetched_batch b _ _ Hq) as (rows & Hrows & ->).
  apply staleBatch_rows in Hrows as (_ & _ & Hall).
  pose proof (proj1 (Forall_forall _ _) Hall) as Hrow.
  apply in_map_iff in Hentry as (e0 & <- & He0).
  assert (e0 = e) as ->.
  { apply unique_id with t; auto.
    - now apply Hrow.
    - now apply nth_error_In with k. }
  split; [|now apply Hrow].
  destruct (updateVectors_table b batchSize t) as (entries & -> & He).
  rewrite nth_error_map, Hk. simpl. f_equal.
  apply cycleOnRow_untouched. intros Hin.
  destruct He as [-> | [_ Hq']]; [exact Hin|].
  rewrite Hq in Hq'. injection Hq' as <-.
  apply in_map_iff in Hin as (entry' & Hid' & Hentry').
  apply filter_In in Hentry' as [Hentry' Hok].
  apply in_map_iff in Hentry' as (e1 & <- & He1).
  assert (e1 = e) as ->.
  { apply unique_id with t; auto.
    - now apply Hrow.
    - now apply nth_error_In with k. }
  congruence.
Qed.

Lemma X4_failed_note_is_retried_witness :
  nth_error (fst (updateVectors Scenario.backendFlaky 10 Scenario.tableSync)) 3
  = Some Scenario.noteEdited
  /\ needingVectorsWhere testUserID Scenario.noteEdited = true.
Proof.
  refine (@X4_failed_note_is_retried Scenario.backendFlaky 10%Z Scenario.tableSync
            [needRow Scenario.noteEdited; needRow Scenario.noteNew]
            (needRow Scenario.noteEdited) 3 Scenario.noteEdited _ _ _ _ _ _ _).
  - repeat constructor; simpl; intuition discriminate.
  - reflexivity.
  - reflexivity.
  - left. reflexivity.
  - reflexivity.
  - reflexivity.
  - reflexivity.
Defined.

Lemma updateVectors_fetched (b : Backend) (batchSize : Z) (t : Table)
  (entries : list GetEntriesNeedingVectorsRow) :
  fetchFails b = false ->
  GetEntriesNeedingVectors t testUserID batchSize = Some entries ->
  fst (updateVectors b batchSize t) = map (Props.cycleOnRow b 0 entries) t.
Proof.
  intros Hf Hq. unfold updateVectors. rewrite Hf, Hq.
  destruct entries as [|entry rest].
  - simpl. now rewrite map_id.
  - pose proof (processEntries_rows b (entry :: rest) 0 t) as H.
    destruct (processEntries b 0 (entry :: rest) t) as [t' evs]. exact H.
Qed.

Lemma filter_none (A : Type) (f : A -> bool) (l : list A) :
  (forall x, In x l -> f x = false) -> filter f l = [].
Proof.
  induction l as [|x l IH]; intros H; [reflexivity|].
  simpl. rewrite (H x) by now left. apply IH. intros y Hy. apply H. now right.
Qed.

Lemma no_stale_no_work (b : Backend) (batchSize : Z) (t : Table) :
  fetchFails b = false ->
  (0 <= batchSize)%Z ->
  filter (needingVectorsWhere testUserID) t = [] ->
  GetEntriesNeedingVectors t testUserID batchSize = Some []
  /\ updateVectors b batchSize t = (t, []).
Proof.
  intros Hf Hpos Hnone.
  assert (GetEntriesNeedingVectors t testUserID batchSize = Some []) as Hq.
  { unfold GetEntriesNeedingVectors, staleBatch. rewrite Hnone. simpl.
    unfold limitRows. destruct (Z.ltb_spec batchSize 0); [lia|].
    now rewrite firstn_nil. }
  split; [exact Hq|]. unfold updateVectors. now rewrite Hf, Hq.
Qed.

(** X5: when the batch size covers all stale notes, the model and the
    database work for all of them, and no note is dated after the time of
    its update, one cycle leaves no stale note: the next fetch is empty and
    the next cycle makes no call and writes nothing. *)
Theorem X5_full_cycle_converges (b : Backend) (batchSize : Z) (t : Table) :
  fetchFails b = false ->
  (forall text, GenerateEmbedding b text <> None) ->
  (forall id, updateFails b id = false) ->
  (forall e j, In e t -> (UpdatedAt e <= clock b j)%Z) ->
  (Z.of_nat (length (filter (needingVectorsWhere testUserID) t)) <= batchSize)%Z ->
  GetEntriesNeedingVectors (fst (updateVectors b batchSize t)) testUserID batchSize
  = Some []
  /\ updateVectors b batchSize (fst (updateVectors b batchSize t))
     = (fst (updateVectors b batchSize t), []).
Proof.
  intros Hf Hembed Hupd Hclock Hsize.
  assert (0 <= batchSize)%Z as Hpos by lia.
  set (sorted := orderBy updatedDesc (filter (needingVectorsWhere testUserID) t)).
  pose proof (orderBy_perm updatedDesc (filter (needingVectorsWhere testUserID) t))
    as Hperm. fold sorted in Hperm.
  assert (GetEntriesNeedingVectors t testUserID batchSize
          = Some (map needRow sorted)) as Hq.
  { unfold GetEntriesNeedingVectors, staleBatch. fold sorted.
    destruct (limitRows_spec sorted Hpos) as (-> & _ & _).
    rewrite firstn_all2; [reflexivity|].
    rewrite (Permutation_length Hperm). lia. }
  apply no_stale_no_work; [exact Hf|exact Hpos|].
  rewrite updateVectors_fetched with (entries := map needRow sorted)
    by assumption.
  apply filter_none. intros e' He'.
  apply in_map_iff in He' as (e & <- & He).
  rewrite needingVectorsWhere_content with (e := e)
    by apply cycleOnRow_content.
  destruct ((UserID e =? testUserID)%N && negb (Archived e)) eqn:Ew;
    [|reflexivity].
  cbn [andb]. apply cycleOnRow_fresh; [intros j; now apply Hclock|].
  destruct (needsVectors e) eqn:En; [right|now left].
  assert (filter (Props.succeeds b) (map needRow sorted) = map needRow sorted)
    as ->.
  { clear -Hembed Hupd. induction sorted as [|x l IH]; [reflexivity|]. simpl.
    unfold Props.succeeds at 1, Spec.embedFails, isNull.
    destruct (GenerateEmbedding b (Spec.textOf (needRow x))) eqn:E;
      [|now apply Hembed in E].
    rewrite Hupd. simpl. now rewrite IH. }
  rewrite batch_ids. apply in_map.
  apply (Permutation_in _ (Permutation_sym Hperm)).
  apply filter_In. split; [exact He|].
  unfold needingVectorsWhere. now rewrite Ew, En.
Qed.

Lemma X5_full_cycle_converges_witness :
  GetEntriesNeedingVectors
    (fst (updateVectors Scenario.backendUp 10 Scenario.tableSync)) testUserID 10
  = Some []
  /\ updateVectors Scenario.backendUp 10
       (fst (updateVectors Scenario.backendUp 10 Scenario.tableSync))
     = (fst (updateVectors Scenario.backendUp 10 Scenario.tableSync), []).
Proof.
  apply (@X5_full_cycle_converges Scenario.backendUp 10%Z Scenario.tableSync).
  - reflexivity.
  - discriminate.
  - reflexivity.
  - intros e j H.
    assert (UpdatedAt e <= 5000)%Z
      by (destruct H as [<- | [<- | [<- | [<- | []]]]]; simpl; lia).
    change (clock Scenario.backendUp j) with (5000 + Z.of_nat j)%Z. lia.
  - simpl. lia.
Defined.

End CycleMore.

(* ===================================================================== *)
(** * Further properties: the queries *)
(* ===================================================================== *)

Section QueriesMore.

Lemma SoftDeleteEntry_archived (t : Table) (id : UUID) (now : Timestamp) (e : Entry) :
  In e (SoftDeleteEntry t id now) -> ID e = id -> Archived e = true.
Proof.
  unfold SoftDeleteEntry. intros Hin Hid.
  apply in_map_iff in Hin as (e0 & He & _).
  destruct (N.eqb_spec (ID e0) id) as [Heq|Hne].
  - now subst e.
  - subst e0. contradiction.
Qed.

Lemma GetEntry_SoftDeleteEntry (t : Table) (id : UUID) (now : Timestamp) :
  GetEntry (SoftDeleteEntry t id now) id = None.
Proof.
  unfold GetEntry.
  destruct (find _ (SoftDeleteEntry t id now)) as [e|] eqn:E; [|reflexivity].
  apply find_some in E as [Hin Hp].
  apply andb_true_iff in Hp as [Hid Ha]. apply N.eqb_eq in Hid.
  rewrite SoftDeleteEntry_archived with (t := t) (id := id) (now := now) in Ha
    by assumption.
  discriminate.
Qed.

(** X6: once [SoftDeleteEntry] has archived a note, no read of the
    modelled queries returns it: [GetEntry] finds no row, and neither the
    stale batch nor the nearest-neighbour search of any user holds a row
    with its id. *)
Theorem X6_archived_note_is_hidden (t : Table) (id : UUID) (now : Timestamp) :
  GetEntry (SoftDeleteEntry t id now) id = None
  /\ (forall user limit rows,
         GetEntriesNeedingVectors (SoftDeleteEntry t id now) user limit = Some rows ->
         Forall (fun r => N_ID r <> id) rows)
  /\ (forall user q limit rows,
         Db.SearchSimilarEntries (SoftDeleteEntry t id now) user q limit = Some rows ->
         Forall (fun r => S_ID r <> id) rows).
Proof.
  split; [|split].
  - unfold GetEntry.
    destruct (find _ (SoftDeleteEntry t id now)) as [e|] eqn:E; [|reflexivity].
    apply find_some in E as [Hin Hp].
    apply andb_true_iff in Hp as [Hid Ha]. apply N.eqb_eq in Hid.
    rewrite SoftDeleteEntry_archived with (t := t) (id := id) (now := now) in Ha
      by assumption.
    discriminate.
  - intros user limit rows H. unfold GetEntriesNeedingVectors in H.
    destruct (staleBatch _ user limit) as [es|] eqn:E; [|discriminate].
    injection H as <-. apply staleBatch_rows in E as (_ & _ & Hall).
    apply Forall_map. eapply Forall_impl; [|exact Hall].
    intros e [Hin Hw] Hid. simpl in Hid.
    unfold needingVectorsWhere in Hw.
    rewrite SoftDeleteEntry_archived with (t := t) (id := id) (now := now) in Hw
      by assumption.
    rewrite andb_false_r in Hw. discriminate.
  - intros user q limit rows H. unfold Db.SearchSimilarEntries in H.
    destruct (nearest _ user q limit) as [ps|] eqn:E; [|discriminate].
    injection H as <-. apply nearest_spec in E as (_ & Hall & _).
    apply Forall_map. eapply Forall_impl; [|exact Hall].
    intros p (Hin & _ & Ha & _) Hid. simpl in Hid.
    rewrite SoftDeleteEntry_archived with (t := t) (id := id) (now := now) in Ha
      by assumption.
    discriminate.
Qed.

Lemma GetEntry_app_fresh (t : Table) (e : Entry) (id : UUID) :
  GetEntry (t ++ [e]) id
  = match GetEntry t id with
    | Some x => Some x
    | None => if (ID e =? id)%N && negb (Archived e) then Some e else None
    end.
Proof.
  unfold GetEntry. induction t as [|x t IH]; simpl.
  - destruct ((ID e =? id)%N && negb (Archived e)); reflexivity.
  - destruct ((ID x =? id)%N && negb (Archived x)); [reflexivity|exact IH].
Qed.

(** X7: a note created under an id that no row has yet is found again by
    [GetEntry] under this id, with the given title, text and day, both
    timestamps at the time of creation and no vector; the other ids read
    as before. *)
Theorem X7_created_note_is_found (t : Table) (id user : UUID)
  (title bodyText : gostring) (y m d : Z) (now : Timestamp) :
  ~ In id (map ID t) ->
  GetEntry (CreateEntry t id user title bodyText y m d now) id
  = Some (mkEntry id user title bodyText y m d false now now None None)
  /\ forall id', id' <> id ->
                 GetEntry (CreateEntry t id user title bodyText y m d now) id'
                 = GetEntry t id'.
Proof.
  intros Hfresh. unfold CreateEntry. split.
  - rewrite GetEntry_app_fresh.
    destruct (GetEntry t id) as [x|] eqn:E.
    + unfold GetEntry in E. apply find_some in E as [Hin Hp].
      apply andb_true_iff in Hp as [Hid _]. apply N.eqb_eq in Hid.
      exfalso. apply Hfresh. rewrite <- Hid. now apply in_map.
    + simpl. now rewrite N.eqb_refl.
  - intros id' Hne. rewrite GetEntry_app_fresh.
    destruct (GetEntry t id'); [reflexivity|]. simpl.
    destruct (N.eqb_spec id id'); [congruence|reflexivity].
Qed.

Lemma X7_created_note_is_found_witness :
  GetEntry (Cases.withNewNote Scenario.tableAB) 9%N = Some Cases.newNote
  /\ forall id', id' <> 9%N ->
                 GetEntry (Cases.withNewNote Scenario.tableAB) id'
                 = GetEntry Scenario.tableAB id'.
Proof.
  apply (@X7_created_note_is_found Scenario.tableAB 9%N Scenario.user (lit "New")
           (lit "Text") 2025%Z 11%Z 24%Z 7000%Z).
  simpl. intuition discriminate.
Defined.

Lemma orderBy_newest_last (l : list Entry) (x : Entry) :
  (forall e, In e l -> (UpdatedAt e < UpdatedAt x)%Z) ->
  orderBy updatedDesc (l ++ [x]) = x :: orderBy updatedDesc l.
Proof.
  induction l as [|y l IH]; intros H; [reflexivity|].
  simpl. rewrite IH by (intros e He; apply H; now right).
  simpl. unfold updatedDesc at 1.
  destruct (Z.leb_spec (UpdatedAt x) (UpdatedAt y)) as [Hle|_]; [|reflexivity].
  specialize (H y (or_introl eq_refl)). lia.
Qed.

(** X8: a note created for a user at a time later than every
    [updated_at] of the table is the first row of that user's next stale
    batch, whatever the (positive) limit: new notes are embedded first. *)
Theorem X8_created_note_heads_the_batch (t : Table) (id user : UUID)
  (title bodyText : gostring) (y m d : Z) (now : Timestamp) (limit : Z) :
  (forall e, In e t -> (UpdatedAt e < now)%Z) ->
  (1 <= limit)%Z ->
  exists rest,
    GetEntriesNeedingVectors (CreateEntry t id user title bodyText y m d now)
                             user limit
    = Some (mkNeedRow id title bodyText now now :: rest).
Proof.
  intros Hnew Hlimit.
  unfold GetEntriesNeedingVectors, staleBatch, CreateEntry.
  rewrite filter_app. cbn [filter].
  assert (needingVectorsWhere user
            (mkEntry id user title bodyText y m d false now now None None) = true)
    as -> by (unfold needingVectorsWhere; simpl; now rewrite N.eqb_refl).
  rewrite orderBy_newest_last.
  - unfold limitRows. destruct (Z.ltb_spec limit 0) as [H|_]; [lia|].
    destruct (Z.to_nat limit) as [|n] eqn:En; [lia|].
    simpl. eexists. reflexivity.
  - intros e He. apply filter_In in He as [He _]. simpl. now apply Hnew.
Qed.

Lemma X8_created_note_heads_the_batch_witness :
  exists rest,
    GetEntriesNeedingVectors (Cases.withNewNote Scenario.tableSync) Scenario.user 1
    = Some (needRow Cases.newNote :: rest).
Proof.
  apply (@X8_created_note_heads_the_batch Scenario.tableSync 9%N Scenario.user
           (lit "New") (lit "Text") 2025%Z 11%Z 24%Z 7000%Z 1%Z).
  - intros e [<- | [<- | [<- | [<- | []]]]]; simpl; lia.
  - lia.
Defined.

End QueriesMore.

(* ===================================================================== *)
(** * Further properties: the search and the answers *)
(* ===================================================================== *)

Section SearchMore.

Import Handler.

(** X9: whatever [SearchSimilarEntries] returns has at most [limit] rows;
    every row is a non-archived note of the user that has a vector, its
    score is the Euclidean distance of that vector to the query vector,
    and the rows are in ascending order of their score. *)
Theorem X9_search_rows (t : Table) (user : UUID) (q : vector) (limit : Z)
  (rows : list SearchSimilarEntriesRow) :
  Db.SearchSimilarEntries t user q limit = Some rows ->
  (Z.of_nat (length rows) <= limit)%Z
  /\ Forall (fun r => exists e v,
                 In e t /\ searchRow (e, S_Distance r) = r
                 /\ UserID e = user /\ Archived e = false
                 /\ EmbeddingVector e = Some v
                 /\ l2_distance v q = Some (S_Distance r)) rows
  /\ StronglySorted (fun a b => (S_Distance a <= S_Distance b)%R) rows.
Proof.
  unfold Db.SearchSimilarEntries.
  destruct (nearest t user q limit) as [ps|] eqn:E; [|discriminate].
  intros [= <-]. apply nearest_spec in E as (Hlen & Hall & Hsorted).
  split; [now rewrite length_map|]. split.
  - apply Forall_map. eapply Forall_impl; [|exact Hall].
    intros [e dist] (Hin & Hu & Ha & v & Hv & Hd). exists e, v.
    simpl in *. repeat split; assumption.
  - clear -Hsorted. induction Hsorted as [|p ps _ IH Hp]; simpl; constructor.
    + exact IH.
    + apply Forall_map. eapply Forall_impl; [|exact Hp]. now intros.
Qed.

Lemma X9_search_rows_witness :
  (Z.of_nat (length [Cases.rowA]) <= 5)%Z
  /\ Forall (fun r => exists e v,
                 In e Scenario.tableOne /\ searchRow (e, S_Distance r) = r
                 /\ UserID e = Scenario.user /\ Archived e = false
                 /\ EmbeddingVector e = Some v
                 /\ l2_distance v Scenario.queryVector = Some (S_Distance r))
            [Cases.rowA]
  /\ StronglySorted (fun a b => (S_Distance a <= S_Distance b)%R) [Cases.rowA].
Proof.
  exact (@X9_search_rows Scenario.tableOne Scenario.user Scenario.queryVector 5%Z
           [Cases.rowA] eq_refl).
Defined.

Lemma withDistance_mismatch (q : vector) (l : list Entry) (e : Entry) (v : vector) :
  In e l -> EmbeddingVector e = Some v -> length v <> length q ->
  withDistance q l = None.
Proof.
  intros Hin Hv Hlen. induction l as [|x l IH]; [contradiction|].
  simpl. destruct Hin as [-> | Hin].
  - rewrite Hv. unfold l2_distance.
    destruct (Nat.eqb_spec (length v) (length q)); [contradiction|reflexivity].
  - rewrite (IH Hin). destruct (EmbeddingVector x); [|reflexivity].
    destruct (l2_distance v0 q); reflexivity.
Qed.

(** X10: the search fails as a whole when the limit is negative, or when
    one candidate note holds a vector of another dimension than the query
    vector; and [Chat], whose search then fails, offers no note to the
    model. *)
Theorem X10_search_failures (t : Table) (user : UUID) (q : vector) (limit : Z) :
  ((limit < 0)%Z -> Db.SearchSimilarEntries t user q limit = None)
  /\ (forall e v,
         In e t -> searchWhere user e = true -> EmbeddingVector e = Some v ->
         length v <> length q ->
         Db.SearchSimilarEntries t user q limit = None
         /\ forall d message,
             user = VectorService.testUserID ->
             VectorService.GenerateEmbedding (backend d) message = Some q ->
             similarEntriesFor d t message = []).
Proof.
  split.
  - intros Hneg. unfold Db.SearchSimilarEntries, nearest.
    destruct (withDistance q (filter (searchWhere user) t)); [|reflexivity].
    now rewrite limitRows_negative.
  - intros e v Hin Hw Hv Hlen.
    assert (forall k, Db.SearchSimilarEntries t user q k = None) as Hnone.
    { intros k. unfold Db.SearchSimilarEntries, nearest.
      rewrite withDistance_mismatch with (e := e) (v := v); auto.
      apply filter_In. now split. }
    split; [apply Hnone|].
    intros d message -> Hq. unfold similarEntriesFor, VectorService.SearchSimilarEntries.
    rewrite Hq. destruct (VectorService.searchFails (backend d)); [reflexivity|].
    now rewrite Hnone.
Qed.

Lemma X10_search_failures_witness :
  Db.SearchSimilarEntries Scenario.tableAB Scenario.user Cases.shortVector 5 = None
  /\ forall d message,
      Scenario.user = VectorService.testUserID ->
      VectorService.GenerateEmbedding (backend d) message = Some Cases.shortVector ->
      similarEntriesFor d Scenario.tableAB message = [].
Proof.
  refine (proj2 (@X10_search_failures Scenario.tableAB Scenario.user
                   Cases.shortVector 5%Z)
                Scenario.noteA (Scenario.vec768 [3; 0]%R) _ _ _ _).
  - left. reflexivity.
  - reflexivity.
  - reflexivity.
  - rewrite vec768_length. discriminate.
Defined.


Lemma GetEntry_some (t : Table) (id : UUID) (e : Entry) :
  GetEntry t id = Some e -> In e t /\ ID e = id /\ Archived e = false.
Proof.
  unfold GetEntry. intros H. apply find_some in H as [Hin Hp].
  apply andb_true_iff in Hp as [Hid Ha].
  apply N.eqb_eq in Hid. apply negb_true_iff in Ha. auto.
Qed.



End SearchMore.

(* ===================================================================== *)
(** * Further properties: strings *)
(* ===================================================================== *)

Section StringsMore.

Import GoMore Html Api.

(** [AtoiValue] is the value of [Atoi] when [Atoi] returns no error. *)
Lemma AtoiValue_Atoi (s : gostring) (v : Z) : Atoi s = Some v -> AtoiValue s = v.
Proof.
  unfold Atoi, AtoiValue. destruct s as [|c r]; [discriminate|].
  destruct (if ((byte c =? 45) || (byte c =? 43))%N then r else c :: r)
    as [|x body]; [discriminate|].
  destruct (digits 0 (x :: body)) as [n|]; [|discriminate].
  cbv zeta.
  destruct (((minInt <=? (if (byte c =? 45)%N then (- n)%Z else n))
             && ((if (byte c =? 45)%N then (- n)%Z else n) <=? maxInt))%Z) eqn:E;
    [|discriminate].
  intros [= <-]. apply andb_true_iff in E as [H1 H2].
  apply Z.leb_le in H1, H2. lia.
Qed.

(** ** A separator of one byte *)

Lemma Index_byte_None (s : gostring) (c : ascii) :
  Index s [c] = None <-> ~ In c s.
Proof.
  induction s as [|x s IH]; [simpl; tauto|].
  rewrite Index_cons. cbn [HasPrefix].
  destruct (Ascii.eqb_spec c x) as [->|Hne]; simpl.
  - split; [discriminate|]. intros H. exfalso. apply H. now left.
  - destruct (Index s [c]) as [m|] eqn:E; simpl.
    + split; [discriminate|]. intros H. exfalso.
      assert (~ In c s) as Hs by (intros Hs; apply H; now right).
      apply IH in Hs. discriminate.
    + split; [|reflexivity]. intros _ [Hx|Hs]; [congruence|].
      now apply (proj1 IH).
Qed.

Lemma Index_byte_Some (s : gostring) (c : ascii) (m : nat) :
  Index s [c] = Some m ->
  ~ In c (firstn m s) /\ skipn m s = c :: skipn (m + 1) s.
Proof.
  revert m; induction s as [|x s IH]; intros m; [discriminate|].
  rewrite Index_cons. cbn [HasPrefix].
  destruct (Ascii.eqb_spec c x) as [->|Hne]; simpl.
  - intros [= <-]. split; [simpl; tauto|reflexivity].
  - destruct (Index s [c]) as [k|] eqn:E; [|discriminate].
    simpl. intros [= <-]. destruct (IH k eq_refl) as [H1 H2]. split.
    + simpl. intros [Hx|Hs]; [congruence|contradiction].
    + simpl. exact H2.
Qed.

Lemma byte_sep_not_nil (c : ascii) : [c] <> @nil ascii.
Proof. discriminate. Qed.

(** [Split] on one byte cuts at every occurrence, and no part holds the
    byte. *)
Lemma Split_byte (c : ascii) (n : nat) :
  forall s, length s <= n ->
            length (Split s [c]) = S (occurrences s [c])
            /\ Forall (fun part => ~ In c part) (Split s [c]).
Proof.
  induction n as [|n IH]; intros s Hn.
  - destruct s; [|simpl in Hn; lia]. split; [reflexivity|].
    repeat constructor. simpl. tauto.
  - destruct (Index s [c]) as [m|] eqn:E.
    + rewrite Split_Some with (m := m) by (apply byte_sep_not_nil || exact E).
      change (length [c]) with 1.
      destruct (Index_byte_Some _ _ E) as [Hpre Hskip].
      destruct (Index_Some _ _ E) as [_ Hocc].
      pose proof (Index_Some_length _ _ E) as Hlen. simpl length in Hlen.
      destruct (IH (skipn (m + 1) s)) as [IHl IHf];
        [rewrite length_skipn; lia|].
      split.
      * cbn [length]. rewrite IHl, Hocc, Hskip. rewrite occurrences_cons.
        cbn [HasPrefix]. now rewrite Ascii.eqb_refl.
      * constructor; assumption.
    + rewrite Split_None by (apply byte_sep_not_nil || exact E).
      split.
      * simpl. apply Index_None_iff in E. now rewrite E.
      * repeat constructor. now apply Index_byte_None.
Qed.

(** ** What [TrimSpace] returns *)

Lemma In_skipn (A : Type) (n : nat) (l : list A) (x : A) :
  In x (skipn n l) -> In x l.
Proof.
  intros H. rewrite <- (firstn_skipn n l). apply in_or_app. now right.
Qed.

Lemma trimLeft_skipn (fuel : nat) :
  forall s, exists k, trimLeft fuel s = skipn k s.
Proof.
  induction fuel as [|fuel IH]; intros s; [now exists 0|].
  cbn [trimLeft]. destruct (leadingSpace s) as [|w]; [now exists 0|].
  destruct (IH (skipn (S w) s)) as [k ->]. exists (S w + k).
  now rewrite skipn_skipn, Nat.add_comm.
Qed.

Lemma trimRightRev_skipn (fuel : nat) :
  forall r, exists k, trimRightRev fuel r = skipn k r.
Proof.
  induction fuel as [|fuel IH]; intros r; [now exists 0|].
  cbn [trimRightRev]. destruct (trailingSpace r) as [|w]; [now exists 0|].
  destruct (IH (skipn (S w) r)) as [k ->]. exists (S w + k).
  now rewrite skipn_skipn, Nat.add_comm.
Qed.

Lemma TrimSpace_In (s : gostring) (c : ascii) : In c (TrimSpace s) -> In c s.
Proof.
  unfold TrimSpace. intros H. apply in_rev in H.
  destruct (trimRightRev_skipn (length (trimLeft (length s) s))
              (rev (trimLeft (length s) s))) as [k Hk].
  rewrite Hk in H. apply In_skipn in H. apply in_rev in H.
  destruct (trimLeft_skipn (length s) s) as [j Hj]. rewrite Hj in H.
  now apply In_skipn in H.
Qed.

Lemma leadingSpace_firstn (l : gostring) (m : nat) :
  leadingSpace l = 0 -> leadingSpace (firstn m l) = 0.
Proof.
  unfold leadingSpace.
  destruct l as [|c [|d [|e r]]]; destruct m as [|[|[|m]]]; simpl; auto;
    destruct (asciiSpace c); auto; destruct (space2 c d); auto;
    try discriminate.
Qed.

(** The result of [TrimSpace] starts with no white-space rune. *)
Lemma TrimSpace_leading (s : gostring) : leadingSpace (TrimSpace s) = 0.
Proof.
  unfold TrimSpace.
  set (l := trimLeft (length s) s).
  assert (leadingSpace l = 0) as Hl by (apply trimLeft_done, Nat.le_refl).
  destruct (trimRightRev_skipn (length l) (rev l)) as [k ->].
  rewrite skipn_rev, rev_involutive. now apply leadingSpace_firstn.
Qed.

(** ** [normalizeAttendees] *)

Lemma normalize_fold (parts : list gostring) (acc : list gostring) :
  fold_left (fun normalized part =>
               let trimmed := TrimSpace part in
               if eqs trimmed [] then normalized else normalized ++ [trimmed])
            parts acc
  = acc ++ filter (fun name => negb (eqs name [])) (map TrimSpace parts).
Proof.
  revert acc; induction parts as [|part parts IH]; intros acc; simpl.
  - now rewrite app_nil_r.
  - rewrite IH. destruct (eqs (TrimSpace part) []); simpl; [reflexivity|].
    now rewrite <- app_assoc.
Qed.

(** X13: the names that [normalizeAttendees] returns are the
    comma-separated parts of the input, trimmed, in their order, without
    the parts that are empty once trimmed; so no name is empty, holds a
    comma, or starts or ends with white space. *)
Theorem X13_normalized_attendees (original : gostring) :
  normalizeAttendees original
  = filter (fun name => negb (eqs name []))
           (map TrimSpace (Split original (lit ",")))
  /\ Forall (fun name =>
               name <> [] /\ ~ In ","%char name
               /\ leadingSpace name = 0 /\ trailingSpace (rev name) = 0)
            (normalizeAttendees original).
Proof.
  assert (normalizeAttendees original
          = filter (fun name => negb (eqs name []))
                   (map TrimSpace (Split original (lit ",")))) as Heq.
  { unfold normalizeAttendees. destruct original as [|c s]; [reflexivity|].
    now rewrite normalize_fold. }
  split; [exact Heq|]. rewrite Heq.
  apply Forall_forall. intros name Hin.
  apply filter_In in Hin as [Hin Hne].
  apply in_map_iff in Hin as (part & <- & Hpart).
  split; [|split; [|split]].
  - intros H. rewrite H in Hne. discriminate.
  - intros Hc. apply TrimSpace_In in Hc.
    destruct (@Split_byte ","%char (length original) original (Nat.le_refl _))
      as [_ Hall].
    now apply (proj1 (Forall_forall _ _) Hall part).
  - apply TrimSpace_leading.
  - apply TrimSpace_trailing.
Qed.

Example normalizeAttendees_demo :
  normalizeAttendees (lit " Ann Lee ,, Bob,  ") = [lit "Ann Lee"; lit "Bob"].
Proof. reflexivity. Qed.

(** ** [stripHTML] *)

Ltac bounds :=
  repeat match goal with
         | H : (_ && _)%bool = true |- _ => apply andb_true_iff in H; destruct H
         | H : between _ _ _ = true |- _ => unfold between in H
         | H : (_ <? _)%N = false |- _ => apply N.ltb_ge in H
         | H : (_ <? _)%N = true |- _ => apply N.ltb_lt in H
         | H : (_ <=? _)%N = true |- _ => apply N.leb_le in H
         | H : (_ <=? _)%N = false |- _ => apply N.leb_gt in H
         | H : (_ =? _)%N = true |- _ => apply N.eqb_eq in H
         | H : (_ =? _)%N = false |- _ => apply N.eqb_neq in H
         | H : context [if ?b then _ else _] |- _ => destruct b eqn:?
         end.

Ltac branches :=
  repeat match goal with
         | |- context [if ?b then _ else _] => destruct b eqn:?
         end.

(** An encoding of more than one byte is made of bytes from 128 on. *)
Lemma validWidth_bytes (html : gostring) (w : nat) :
  validWidth html = S (S w) ->
  Forall (fun x => (128 <= byte x)%N) (firstn (S (S w)) html).
Proof.
  unfold validWidth.
  destruct html as [|c0 [|c1 [|c2 [|c3 r]]]]; branches; intros H;
    try discriminate; injection H as <-; cbn [firstn]; bounds;
    repeat (apply Forall_cons; [cbv beta; lia|]); apply Forall_nil.
Qed.

Lemma validWidth_le (html : gostring) : validWidth html <= length html.
Proof.
  unfold validWidth.
  destruct html as [|c0 [|c1 [|c2 [|c3 r]]]]; branches; simpl; lia.
Qed.

(** More rounds than bytes change nothing. *)
Lemma stripLoop_fuel (f1 : nat) :
  forall f2 inTag html,
    length html <= f1 -> length html <= f2 ->
    stripLoop f1 inTag html = stripLoop f2 inTag html.
Proof.
  induction f1 as [|f1 IH]; intros f2 inTag html H1 H2.
  - destruct html; [|simpl in H1; lia]. now destruct f2.
  - destruct f2 as [|f2]; [destruct html; [reflexivity|simpl in H2; lia]|].
    cbn [stripLoop]. destruct html as [|c rest]; [reflexivity|].
    pose proof (validWidth_le (c :: rest)) as Hw. simpl length in *.
    destruct (validWidth (c :: rest)) as [|w].
    + f_equal. apply IH; lia.
    + rewrite (IH f2 true rest), (IH f2 false rest) by lia.
      rewrite (IH f2 inTag (skipn (S w) (c :: rest)))
        by (rewrite length_skipn; simpl; lia).
      reflexivity.
Qed.

Lemma stripLoop_bytes (fuel : nat) :
  forall inTag html x,
    In x (stripLoop fuel inTag html) -> byte x <> 60%N /\ byte x <> 62%N.
Proof.
  induction fuel as [|fuel IH]; intros inTag html x; [contradiction|].
  cbn [stripLoop]. destruct html as [|c rest]; [contradiction|].
  destruct (validWidth (c :: rest)) as [|w] eqn:Ew.
  - intros H. apply in_app_or in H as [H|H]; [|now apply IH in H].
    destruct inTag; [contradiction|].
    destruct H as [<- | [<- | [<- | []]]]; split; discriminate.
  - destruct (N.eqb_spec (byte c) 60) as [_|H60]; [apply IH|].
    destruct (N.eqb_spec (byte c) 62) as [_|H62]; [apply IH|].
    intros H. apply in_app_or in H as [H|H]; [|now apply IH in H].
    destruct inTag; [contradiction|].
    destruct w as [|w].
    + destruct H as [<- | []]. now split.
    + apply validWidth_bytes in Ew.
      apply (proj1 (Forall_forall _ _) Ew) in H. split; lia.
Qed.

(** X14: the text that [stripHTML] (and its copy [stripHTMLTags]) returns
    holds neither ['<'] nor ['>'], whatever the input, valid UTF-8 or
    not. *)
Theorem X14_stripped_text_has_no_brackets (html : gostring) :
  ~ In "<"%char (stripHTML html) /\ ~ In ">"%char (stripHTML html)
  /\ stripHTMLTags html = stripHTML html.
Proof.
  assert (forall x, In x (stripHTML html) -> byte x <> 60%N /\ byte x <> 62%N)
    as H.
  { intros x Hx. unfold stripHTML in Hx. apply TrimSpace_In in Hx.
    now apply stripLoop_bytes in Hx. }
  split; [|split; [|reflexivity]]; intros Hin; apply H in Hin as [H1 H2];
    [now apply H1|now apply H2].
Qed.

Lemma stripLoop_inside_tag (fuel : nat) :
  forall html, ~ In ">"%char html -> stripLoop fuel true html = [].
Proof.
  induction fuel as [|fuel IH]; intros html Hno; [reflexivity|].
  cbn [stripLoop]. destruct html as [|c rest]; [reflexivity|].
  assert (~ In ">"%char rest) as Hrest by (intros H; apply Hno; now right).
  destruct (validWidth (c :: rest)) as [|w].
  - simpl. now apply IH.
  - destruct (N.eqb_spec (byte c) 60) as [_|_]; [now apply IH|].
    destruct (N.eqb_spec (byte c) 62) as [H62|_].
    + exfalso. apply Hno. left. unfold byte in H62.
      rewrite <- (ascii_N_embedding c), H62. reflexivity.
    + simpl. apply IH. intros H. apply Hno. now apply In_skipn in H.
Qed.

(** X15: a ['<'] that no ['>'] follows swallows the rest of the text: a
    text that starts with ['<'] and holds no ['>'] is stripped to the
    empty string. *)
Theorem X15_unclosed_tag_swallows_text (html : gostring) :
  ~ In ">"%char html -> stripHTML ("<"%char :: html) = [].
Proof.
  intros Hno. unfold stripHTML. cbn [length stripLoop].
  change (validWidth ("<"%char :: html)) with 1.
  change (byte "<"%char =? 60)%N with true. cbv iota.
  now rewrite stripLoop_inside_tag.
Qed.

Lemma X15_unclosed_tag_swallows_text_witness :
  stripHTML ("<"%char :: lit "3 you and me") = [].
Proof.
  apply (@X15_unclosed_tag_swallows_text (lit "3 you and me")).
  simpl. intuition discriminate.
Defined.

Example stripHTML_demo :
  stripHTML (lit "<p>Hello <b>world</b></p> ") = lit "Hello world"
  /\ stripHTML (lit "a < b and c > d") = lit "a  d"
  /\ stripHTML ["200"; "065"]%char = runeError ++ lit "A".
Proof. repeat split; reflexivity. Qed.

End StringsMore.

(* ===================================================================== *)
(** * Further properties: the entry handlers *)
(* ===================================================================== *)

Section HandlersMore.

Import GoMore Handler Api.

Lemma dash_parts (s : gostring) :
  length (Split s (lit "-")) = S (occurrences s (lit "-")).
Proof. apply (@Split_byte "-"%char (length s) s (Nat.le_refl _)). Qed.

(** X16: [ListEntriesForDay] and [CreateEntry] judge a date by its dashes
    alone: the date is refused (status 400) exactly when it does not hold
    two ['-'], and a date with two dashes is accepted whatever stands
    between them. *)
Theorem X16_date_is_judged_by_its_dashes (failing : Query -> option gostring)
  (t : Table) (id : UUID) (now : Timestamp) (dateStr : gostring)
  (req : CreateEntryRequest) :
  (ListEntriesForDay failing t dateStr = Fail 400 (lit "invalid date format")
   <-> occurrences dateStr (lit "-") <> 2)
  /\ (snd (CreateEntry failing t id now (inr req))
      = Fail 400 (lit "invalid date format, expected YYYY-MM-DD")
      <-> occurrences (C_Date req) (lit "-") <> 2).
Proof.
  split.
  - pose proof (dash_parts dateStr) as Hlen. unfold ListEntriesForDay.
    destruct (Split dateStr (lit "-")) as [|a [|b [|c [|x r]]]]; cbn [length] in Hlen;
      try (split; [intros _; lia|reflexivity]).
    split; [|intros H; exfalso; lia].
    destruct (failing QListEntriesForDay); discriminate.
  - pose proof (dash_parts (C_Date req)) as Hlen. unfold CreateEntry.
    destruct (Split (C_Date req) (lit "-")) as [|a [|b [|c [|x r]]]];
      cbn [length] in Hlen; try (split; [intros _; lia|reflexivity]).
    split; [|intros H; exfalso; lia].
    destruct (negb (validType (C_Type req))); [discriminate|].
    destruct (failing QCreateEntry); discriminate.
Qed.

Example dates_demo :
  ListEntriesForDay Cases.healthy Scenario.tableAB (lit "2025-11-23")
  = Success 200 [entryToResponse Scenario.noteA; entryToResponse Scenario.noteB]
  /\ ListEntriesForDay Cases.healthy Scenario.tableAB (lit "2025-11-xx") = Success 200 []
  /\ ListEntriesForDay Cases.healthy Scenario.tableAB (lit "2025-11--23")
     = Fail 400 (lit "invalid date format")
  /\ ListEntriesForDay Cases.healthy Scenario.tableAB (lit "4294969321-11-23")
     = Success 200 [entryToResponse Scenario.noteA; entryToResponse Scenario.noteB].
Proof. repeat split; reflexivity. Qed.

Lemma ListEntriesForDay_rows (t : Table) (user : UUID) (y m d : Z) (e : Entry) :
  In e (Queries.ListEntriesForDay t user y m d)
  <-> In e t /\ Queries.onDay user y m d e = true.
Proof.
  unfold Queries.ListEntriesForDay. rewrite <- filter_In. split; intros H.
  - now apply (Permutation_in _ (orderBy_perm Queries.createdAsc _)).
  - now apply (Permutation_in _ (Permutation_sym (orderBy_perm Queries.createdAsc _))).
Qed.

(** X17: a note that [CreateEntry] has created (status 201) is listed by
    [ListEntriesForDay] for the very date string of the request, whatever
    that string is. *)
Theorem X17_created_entry_is_listed (failing failing' : Query -> option gostring)
  (t t' : Table) (id : UUID) (now : Timestamp) (req : CreateEntryRequest)
  (created : EntryResponse) :
  CreateEntry failing t id now (inr req) = (t', Success 201 created) ->
  failing' QListEntriesForDay = None ->
  exists listed,
    ListEntriesForDay failing' t' (C_Date req) = Success 200 listed
    /\ In created listed
    /\ R_ID created = id /\ R_Title created = C_Title req
    /\ R_BodyText created = C_BodyText req.
Proof.
  unfold CreateEntry, ListEntriesForDay. intros Hc Hl. rewrite Hl.
  destruct (Split (C_Date req) (lit "-")) as [|a [|b [|c [|x r]]]];
    try (injection Hc as _ Hc; discriminate).
  destruct (negb (validType (C_Type req))); [injection Hc as _ Hc; discriminate|].
  destruct (failing QCreateEntry); [injection Hc as _ Hc; discriminate|].
  injection Hc as <- <-. eexists. split; [reflexivity|].
  split; [|repeat split].
  apply in_map. apply ListEntriesForDay_rows. split.
  - unfold Db.CreateEntry. apply in_or_app. right. now left.
  - unfold Queries.onDay. cbn [UserID DayYear DayMonth DayDay Archived].
    now rewrite N.eqb_refl, !Z.eqb_refl.
Qed.

Lemma X17_created_entry_is_listed_witness :
  exists listed,
    ListEntriesForDay Cases.healthy
      (fst (CreateEntry Cases.healthy Scenario.tableAB 9%N 7000%Z
              (inr Cases.createRequest)))
      (lit "2025-nov-24") = Success 200 listed
    /\ In (entryToResponse
             (mkEntry 9%N getDefaultUserID (lit "New") (lit "Text") 2025%Z 0%Z 24%Z
                      false 7000%Z 7000%Z None None)) listed
    /\ 9%N = 9%N /\ lit "New" = lit "New" /\ lit "Text" = lit "Text".
Proof.
  exact (@X17_created_entry_is_listed Cases.healthy Cases.healthy Scenario.tableAB
           _ 9%N 7000%Z Cases.createRequest _ eq_refl eq_refl).
Defined.

Lemma GetEntry_UpdateEntry (t : Table) (id : UUID) (title bodyText : gostring)
  (now : Timestamp) (e : Entry) :
  GetEntry t id = Some e ->
  GetEntry (Db.UpdateEntry t id title bodyText now) id
  = Some (mkEntry (ID e) (UserID e) title bodyText (DayYear e) (DayMonth e)
                  (DayDay e) (Archived e) (CreatedAt e) now
                  (EmbeddingVector e) (VectorsUpdatedAt e))
  /\ In (mkEntry (ID e) (UserID e) title bodyText (DayYear e) (DayMonth e)
                 (DayDay e) (Archived e) (CreatedAt e) now
                 (EmbeddingVector e) (VectorsUpdatedAt e))
        (Db.UpdateEntry t id title bodyText now).
Proof.
  unfold GetEntry, Db.UpdateEntry. induction t as [|x t IH]; [discriminate|].
  simpl. destruct ((ID x =? id)%N && negb (Archived x)) eqn:E.
  - intros [= ->]. simpl. rewrite E. split; [reflexivity|now left].
  - intros H. rewrite E. destruct (IH H) as [H1 H2]. split; [exact H1|now right].
Qed.

(** X18: a PATCH of an existing note answers 200 with the note in which
    the fields left out keep their value and [updated_at] is the time of
    the request; so even a PATCH that leaves every field out makes a note
    with an older watermark stale again. *)
Theorem X18_patch_keeps_omitted_fields (failing : Query -> option gostring)
  (t : Table) (now : Timestamp) (id : UUID) (req : UpdateEntryRequest) (e : Entry) :
  failing QGetEntry = None ->
  failing QUpdateEntry = None ->
  GetEntry t id = Some e ->
  (forall type, U_Type req = Some type -> validType type = true) ->
  let e' := mkEntry (ID e) (UserID e) (orElse (U_Title req) (Title e))
                    (orElse (U_BodyText req) (BodyText e))
                    (DayYear e) (DayMonth e) (DayDay e) (Archived e) (CreatedAt e)
                    now (EmbeddingVector e) (VectorsUpdatedAt e) in
  UpdateEntry failing t now (Some id) (inr req)
  = (Db.UpdateEntry t id (orElse (U_Title req) (Title e))
                    (orElse (U_BodyText req) (BodyText e)) now,
     Success 200 (entryToResponse e'))
  /\ In e' (fst (UpdateEntry failing t now (Some id) (inr req)))
  /\ ((forall synced, VectorsUpdatedAt e = Some synced -> (synced < now)%Z) ->
      needingVectorsWhere (UserID e) e' = true).
Proof.
  intros Hg Hu He Hty e'.
  destruct (GetEntry_UpdateEntry t id (orElse (U_Title req) (Title e))
              (orElse (U_BodyText req) (BodyText e)) now He) as [Hget Hin].
  fold e' in Hget, Hin.
  assert (UpdateEntry failing t now (Some id) (inr req)
          = (Db.UpdateEntry t id (orElse (U_Title req) (Title e))
                            (orElse (U_BodyText req) (BodyText e)) now,
             Success 200 (entryToResponse e'))) as Heq.
  { unfold UpdateEntry. rewrite Hg, He, Hu.
    destruct (U_Type req) as [type|] eqn:Et.
    - rewrite (Hty type eq_refl). simpl. cbv zeta. now rewrite Hget.
    - cbv zeta. now rewrite Hget. }
  split; [exact Heq|]. split; [now rewrite Heq|].
  intros Hs. apply GetEntry_some in He as (_ & _ & Ha).
  unfold needingVectorsWhere, needsVectors, isNull. simpl.
  rewrite N.eqb_refl, Ha. simpl.
  destruct (EmbeddingVector e); [|reflexivity].
  destruct (VectorsUpdatedAt e) as [synced|]; [|reflexivity].
  simpl. apply Z.ltb_lt. now apply Hs.
Qed.

Lemma X18_patch_keeps_omitted_fields_witness :
  UpdateEntry Cases.healthy Scenario.tableAB 6000%Z (Some 1%N) (inr Cases.emptyPatch)
  = (Db.UpdateEntry Scenario.tableAB 1%N (lit "Roadmap")
                    (lit "Quarterly roadmap review") 6000%Z,
     Success 200 (entryToResponse Cases.noteATouched))
  /\ In Cases.noteATouched
        (fst (UpdateEntry Cases.healthy Scenario.tableAB 6000%Z (Some 1%N)
                (inr Cases.emptyPatch)))
  /\ ((forall synced, Some 2500%Z = Some synced -> (synced < 6000)%Z) ->
      needingVectorsWhere Scenario.user Cases.noteATouched = true).
Proof.
  refine (@X18_patch_keeps_omitted_fields Cases.healthy Scenario.tableAB 6000%Z 1%N
            Cases.emptyPatch Scenario.noteA _ _ _ _).
  - reflexivity.
  - reflexivity.
  - reflexivity.
  - discriminate.
Defined.

(** X19: [DeleteEntry] answers 204 for every well-formed id, also one
    that no note has (the table is then as before); afterwards a PATCH of
    this id answers 404 and writes nothing, and no listing of a day shows a
    note with this id. *)
Theorem X19_delete_then_gone (failing : Query -> option gostring) (t : Table)
  (now : Timestamp) (id : UUID) :
  failing QSoftDeleteEntry = None ->
  DeleteEntry failing t now (Some id) = (SoftDeleteEntry t id now, Success 204 tt)
  /\ (~ In id (map ID t) -> SoftDeleteEntry t id now = t)
  /\ (forall failing' now' req,
         UpdateEntry failing' (SoftDeleteEntry t id now) now' (Some id) (inr req)
         = (SoftDeleteEntry t id now, Fail 404 (lit "entry not found")))
  /\ (forall failing' dateStr listed,
         ListEntriesForDay failing' (SoftDeleteEntry t id now) dateStr
         = Success 200 listed ->
         Forall (fun r => R_ID r <> id) listed).
Proof.
  intros Hf. split; [|split; [|split]].
  - unfold DeleteEntry. now rewrite Hf.
  - intros Hno. unfold SoftDeleteEntry. rewrite <- (map_id t) at 2.
    apply map_ext_in. intros e He.
    destruct (N.eqb_spec (ID e) id) as [Heq|_]; [|reflexivity].
    exfalso. apply Hno. rewrite <- Heq. now apply in_map.
  - intros failing' now' req. unfold UpdateEntry.
    rewrite GetEntry_SoftDeleteEntry.
    destruct (failing' QGetEntry); reflexivity.
  - intros failing' dateStr listed. unfold ListEntriesForDay.
    destruct (Split dateStr (lit "-")) as [|a [|b [|c [|x r]]]]; try discriminate.
    destruct (failing' QListEntriesForDay); [discriminate|].
    intros [= <-]. apply Forall_map. apply Forall_forall. intros e He Hid.
    apply ListEntriesForDay_rows in He as [Hin Hday]. simpl in Hid.
    unfold Queries.onDay in Hday.
    rewrite SoftDeleteEntry_archived with (t := t) (id := id) (now := now) in Hday
      by assumption.
    rewrite andb_false_r in Hday. discriminate.
Qed.

Lemma X19_delete_then_gone_witness :
  DeleteEntry Cases.healthy Scenario.tableAB 6000%Z (Some 8%N)
  = (SoftDeleteEntry Scenario.tableAB 8%N 6000%Z, Success 204 tt)
  /\ (~ In 8%N (map ID Scenario.tableAB) ->
      SoftDeleteEntry Scenario.tableAB 8%N 6000%Z = Scenario.tableAB)
  /\ (forall failing' now' req,
         UpdateEntry failing' (SoftDeleteEntry Scenario.tableAB 8%N 6000%Z) now'
                     (Some 8%N) (inr req)
         = (SoftDeleteEntry Scenario.tableAB 8%N 6000%Z,
            Fail 404 (lit "entry not found")))
  /\ (forall failing' dateStr listed,
         ListEntriesForDay failing' (SoftDeleteEntry Scenario.tableAB 8%N 6000%Z)
                           dateStr
         = Success 200 listed ->
         Forall (fun r => R_ID r <> 8%N) listed).
Proof.
  exact (@X19_delete_then_gone Cases.healthy Scenario.tableAB 6000%Z 8%N eq_refl).
Defined.

End HandlersMore.

(* ===================================================================== *)
(** * Further properties: the calendar *)
(* ===================================================================== *)

Section CalendarMore.

Import GoMore Handler Api.












End CalendarMore.

(* ===================================================================== *)
(** * Further properties: starting and reloading the server *)
(* ===================================================================== *)

Section ServerMore.

Import VectorService Server.

(** The vector service of the server, if any, is never both running and
    stopped once before. *)
Definition restartable (app : AppResources) : Prop :=
  match vectorSvc app with
  | Some s => running s && stopChClosed s = false
  | None => True
  end.

Lemma freshService_done (w : World) :
  freshService w = Done (if enableVectorSearch w then mkService true false 1 else New).
Proof. unfold freshService. now destruct (enableVectorSearch w). Qed.

Lemma boot_restartable (w : World) :
  exists app, boot w = Done app /\ restartable app.
Proof.
  unfold boot. rewrite freshService_done.
  destruct (validates w), (connects w), (pings w);
    eexists; (split; [reflexivity|]); unfold restartable; simpl; auto.
  now destruct (enableVectorSearch w).
Qed.

Lemma Reload_restartable (app : AppResources) (w : World) :
  restartable app ->
  exists app' err, Reload app w = Done (app', err) /\ restartable app'.
Proof.
  unfold restartable, Reload. rewrite freshService_done.
  destruct (vectorSvc app) as [s|]; intros Hs.
  - unfold Stop. destruct (running s) eqn:Er; simpl in *.
    + rewrite Hs.
      destruct (validates w), (connects w), (pings w); simpl;
        do 2 eexists; (split; [reflexivity|]); simpl; auto.
      now destruct (enableVectorSearch w).
    + destruct (validates w), (connects w), (pings w); simpl;
        do 2 eexists; (split; [reflexivity|]); simpl; rewrite ?Er; auto.
      now destruct (enableVectorSearch w).
  - destruct (validates w), (connects w), (pings w); simpl;
      do 2 eexists; (split; [reflexivity|]); simpl; auto.
    now destruct (enableVectorSearch w).
Qed.

(** X22: however often the configuration is reloaded, and whatever the
    configuration and the database are like each time, [Reload] never
    reaches the panic of a second effective [Stop]: the service that a
    failed reload has left stopped does not run, so the [Stop] of the next
    reload returns at once, and a successful reload puts a new service in
    its place. *)
Theorem X22_reload_never_panics (w : World) (ws : list World) :
  serve w ws <> Panic.
Proof.
  unfold serve. destruct (boot_restartable w) as (app & -> & Happ).
  revert app Happ. induction ws as [|w' ws IH]; intros app Happ; [discriminate|].
  simpl. destruct (Reload_restartable app w' Happ) as (app' & err & -> & Happ').
  now apply IH.
Qed.

(** X23: [Reload] reports an error exactly when the new configuration
    does not validate or the database cannot be reached; the old service
    is then stopped and the old pool closed all the same, so the server is
    left without a running vector service and without an open pool.
    Without an error the pool is open and the service is a new one, running
    exactly when vector search is enabled. *)
Theorem X23_failed_reload_leaves_nothing_running (app app' : AppResources)
  (w : World) (err : bool) :
  Reload app w = Done (app', err) ->
  err = negb (validates w && connects w && pings w)
  /\ (err = true ->
      (forall s, vectorSvc app' = Some s -> running s = false)
      /\ dbpool app' <> Some true
      /\ (vectorSvc app = None <-> vectorSvc app' = None)
      /\ (dbpool app = None <-> dbpool app' = None))
  /\ (err = false ->
      dbpool app' = Some true
      /\ vectorSvc app'
         = Some (if enableVectorSearch w then mkService true false 1 else New)).
Proof.
  unfold Reload. rewrite freshService_done.
  assert (forall s s', Stop s = Done s' -> running s' = false) as Hstop.
  { intros s s'. unfold Stop. destruct (running s) eqn:Er; simpl.
    - destruct (stopChClosed s); [discriminate|]. now intros [= <-].
    - now intros [= <-]. }
  destruct (vectorSvc app) as [s|] eqn:Es.
  - destruct (Stop s) as [s'|] eqn:E; [|discriminate].
    apply Hstop in E.
    destruct (validates w), (connects w), (pings w); simpl; intros [= <- <-];
      (split; [reflexivity|]); split; try discriminate; intros _; simpl;
      try (split; reflexivity);
      (split; [now intros ? [= <-]|]);
      (split; [destruct (dbpool app); discriminate|]);
      (split; [split; discriminate|]);
      destruct (dbpool app); split; (discriminate || reflexivity).
  - destruct (validates w), (connects w), (pings w); simpl; intros [= <- <-];
      (split; [reflexivity|]); split; try discriminate; intros _; simpl;
      try (split; reflexivity);
      (split; [discriminate|]);
      (split; [destruct (dbpool app); discriminate|]);
      (split; [split; reflexivity|]);
      destruct (dbpool app); split; (discriminate || reflexivity).
Qed.

Lemma X23_failed_reload_leaves_nothing_running_witness :
  true = negb (validates Cases.badWorld && connects Cases.badWorld
               && pings Cases.badWorld)
  /\ (true = true ->
      (forall s, vectorSvc (mkApp (Some (mkService false true 1)) (Some false))
                 = Some s -> running s = false)
      /\ dbpool (mkApp (Some (mkService false true 1)) (Some false)) <> Some true
      /\ (vectorSvc (mkApp (Some (mkService true false 1)) (Some true)) = None
          <-> vectorSvc (mkApp (Some (mkService false true 1)) (Some false)) = None)
      /\ (dbpool (mkApp (Some (mkService true false 1)) (Some true)) = None
          <-> dbpool (mkApp (Some (mkService false true 1)) (Some false)) = None))
  /\ (true = false ->
      dbpool (mkApp (Some (mkService false true 1)) (Some false)) = Some true
      /\ vectorSvc (mkApp (Some (mkService false true 1)) (Some false))
         = Some (if enableVectorSearch Cases.badWorld
                 then mkService true false 1 else New)).
Proof.
  exact (@X23_failed_reload_leaves_nothing_running
           (mkApp (Some (mkService true false 1)) (Some true))
           (mkApp (Some (mkService false true 1)) (Some false))
           Cases.badWorld true eq_refl).
Defined.

End ServerMore.

(* ===================================================================== *)
(** * Further properties: what the chat endpoint answers *)
(* ===================================================================== *)

Section ChatMore.

Import Handler.

Lemma fetched_short (d : Deps) (t : Table) (retrieved : list SearchSimilarEntriesRow)
  (cited : list Z) :
  (length (flat_map (Spec.fetched d t retrieved) cited) <= length cited)%nat.
Proof.
  induction cited as [|idx cited IH]; simpl; [lia|].
  rewrite length_app. unfold Spec.fetched at 1.
  destruct (nth_error retrieved (Z.to_nat idx)) as [note|]; simpl; [|lia].
  destruct (getEntry d t (S_ID note)); simpl; lia.
Qed.

(** X11: [Chat] always answers, and with one of three replies: 400 exactly
    for a body that does not bind or an empty message, 500 exactly when
    the model call fails, and otherwise 200 with the model's text cleaned
    of its marker and at most one source entry per cited index.  Neither a
    failed search nor a note that cannot be fetched changes the status. *)
Theorem X11_chat_outcomes (d : Deps) (t : Table) (req : option gostring) :
  exists logs reply,
    Chat d t req = Done (logs, reply)
    /\ match reply with
       | StatusBadRequest _ => req = None \/ req = Some []
       | StatusInternalServerError _ =>
           exists message,
             req = Some message /\ message <> []
             /\ ollamaChat d (promptBuilder (similarEntriesFor d t message) message)
                = None
       | StatusOK body =>
           exists message llmResponse,
             req = Some message /\ message <> []
             /\ ollamaChat d (promptBuilder (similarEntriesFor d t message) message)
                = Some llmResponse
             /\ Response body
                = fst (parseCitations llmResponse
                         (length (similarEntriesFor d t message)))
             /\ (length (SourceEntries body)
                 <= length (snd (parseCitations llmResponse
                                   (length (similarEntriesFor d t message)))))%nat
             /\ MessageID body = newMessageID d
       end.
Proof.
  destruct req as [message|]; [|do 2 eexists; split; [reflexivity|]; now left].
  destruct message as [|c m] eqn:Em;
    [do 2 eexists; split; [reflexivity|]; now right|].
  rewrite <- Em.
  assert (message <> []) as Hm by (rewrite Em; discriminate).
  destruct (ollamaChat d (promptBuilder (similarEntriesFor d t message) message))
    as [llmResponse|] eqn:E.
  - destruct (@Chat_answer d t message llmResponse Hm E) as [logs ->].
    do 2 eexists. split; [reflexivity|].
    exists message, llmResponse. cbn [Response SourceEntries MessageID].
    repeat split; auto. apply fetched_short.
  - unfold Chat. rewrite Em in *. cbv zeta. rewrite E.
    do 2 eexists. split; [reflexivity|]. exists (c :: m). auto.
Qed.

End ChatMore.
